(** * EDA helpers of the churn data set: column names and charts

    A shallow embedding of [src/data_prepare.py] (the column-name normalizer)
    and of [src/vizualization.py] (the chart routines), with the properties
    their specification states.

    Modelling choices.
    - A Python [str] is a Rocq [string]; a character is an [ascii], read as
      the Unicode code point of the same number (U+0000 to U+00FF, the
      Latin-1 range).  Names with code points above U+00FF are outside the
      embedding.
    - A pandas [DataFrame] is its list of column labels and its rows; a cell
      is missing ([NaN]), an integer or a string.
    - A pandas [Series] of [value_counts] is the list of its (label, value)
      pairs in index order.
    - Percentages are doubles in the source.  A finite double is kept as
      the rational it stands for ([Q]), and every operation the source
      makes on percentages and on the heights of labels is rounded to the
      nearest double, ties to even, as IEEE 754 arithmetic does; numpy's
      [round] is followed step by step.  Overflow and subnormal numbers
      are not modelled: the properties that depend on a value state the
      range of [percent_decimals] they cover.  Positions along the x axis
      (ticks, edges and widths of bars) are kept as exact rationals: they
      tell where a bar stands.
    - The plotting library is a sink: a chart routine yields the list of the
      library calls it makes, and the exception that stopped it, if any.
      Of the library only what decides the control flow of the routines is
      kept: a grid needs a row, a pie needs wedge sizes that do not add
      up to zero, [ax.bar] broadcasts positions against heights and
      returns one bar per pair, and the array of axes is indexed by row
      and column.
    - Texts are kept by kind and by the values they interpolate, not as
      rendered strings.
    - [data_info] calls [display], which the module does not define: the
      embedding takes as an argument whether the call is made where
      IPython defines it. *)

From Stdlib Require Import ZArith QArith Qround Qabs Qpower Lqa Lia Bool Ascii String List.
From stdpp Require Import base decidable option list strings gmap.

Open Scope string_scope.
Open Scope list_scope.

(* ===================================================================== *)
(** ** Characters and strings (Python [str], Latin-1 range)               *)
(* ===================================================================== *)

Definition code (c : ascii) : N := N_of_ascii c.

Definition in_range (lo hi : N) (c : ascii) : bool :=
  ((lo <=? code c) && (code c <=? hi))%N.

(** The regular-expression classes [[a-z]], [[0-9]] and [[A-Z]]. *)
Definition is_az (c : ascii) : bool := in_range 97 122 c.
Definition is_09 (c : ascii) : bool := in_range 48 57 c.
Definition is_AZ (c : ascii) : bool := in_range 65 90 c.

Definition underscore : ascii := "_"%char.
Definition space : ascii := " "%char.

Definition is_underscore (c : ascii) : bool := Ascii.eqb c underscore.
Definition is_space (c : ascii) : bool := Ascii.eqb c space.

(** [str.isupper] on one character: the ASCII capitals and the Latin-1
    capitals U+00C0..U+00DE, the multiplication sign U+00D7 apart. *)
Definition isupper (c : ascii) : bool :=
  is_AZ c || (in_range 192 222 c && negb (code c =? 215)%N).

(** [str.isspace] on one character: tab to carriage return, the four
    separators U+001C..U+001F, the space, NEL (U+0085) and the no-break
    space (U+00A0). *)
Definition isspace (c : ascii) : bool :=
  in_range 9 13 c || in_range 28 32 c || (code c =? 133)%N || (code c =? 160)%N.

(** [str.lower] on one character: a capital moves 32 code points up. *)
Definition lower_char (c : ascii) : ascii :=
  if isupper c then ascii_of_N (code c + 32) else c.

(* ===================================================================== *)
(** ** data_prepare.py: snake_columns_rename                              *)
(* ===================================================================== *)

(** [.str.replace(r"([a-z0-9])([A-Z])", r"\1 \2", regex=True)]:
    matches are found left to right and do not overlap; a match is
    rewritten with a space between its two characters. *)
Fixpoint camel_split (l : list ascii) : list ascii :=
  match l with
  | [] => []
  | a :: rest =>
      match rest with
      | b :: t =>
          if (is_az a || is_09 a) && is_AZ b
          then a :: space :: b :: camel_split t
          else a :: camel_split rest
      | [] => [a]
      end
  end.

(** [.str.replace(" ", "_")]: the space character alone is replaced. *)
Definition replace_space (l : list ascii) : list ascii :=
  map (fun c => if is_space c then underscore else c) l.

(** [.str.lower()]. *)
Definition lower (l : list ascii) : list ascii := map lower_char l.

Definition starts_with_underscore (l : list ascii) : bool :=
  match l with
  | c :: _ => is_underscore c
  | [] => false
  end.

(** [.str.replace(r"_+", "_", regex=True)]: every maximal run of
    underscores becomes one underscore, that is, an underscore followed by
    an underscore is dropped. *)
Fixpoint collapse_underscores (l : list ascii) : list ascii :=
  match l with
  | [] => []
  | c :: rest =>
      if is_underscore c && starts_with_underscore rest
      then collapse_underscores rest
      else c :: collapse_underscores rest
  end.

(** [.str.strip("_")]: leading, then trailing underscores are removed. *)
Fixpoint lstrip_underscores (l : list ascii) : list ascii :=
  match l with
  | [] => []
  | c :: rest => if is_underscore c then lstrip_underscores rest else l
  end.

Definition rstrip_underscores (l : list ascii) : list ascii :=
  rev (lstrip_underscores (rev l)).

Definition strip_underscores (l : list ascii) : list ascii :=
  rstrip_underscores (lstrip_underscores l).

(** The chain of string methods applied to every column label. *)
Definition snake_chars (l : list ascii) : list ascii :=
  strip_underscores (collapse_underscores (lower (replace_space (camel_split l)))).

Definition snake_case (name : string) : string :=
  string_of_list_ascii (snake_chars (list_ascii_of_string name)).

(** Predicates of the specification on a name. *)
Definition chars (s : string) : list ascii := list_ascii_of_string s.

Fixpoint has_double_underscore (l : list ascii) : bool :=
  match l with
  | [] => false
  | c :: rest =>
      (is_underscore c && starts_with_underscore rest) || has_double_underscore rest
  end.

Definition ends_with_underscore (l : list ascii) : bool :=
  starts_with_underscore (rev l).

Definition no_upper (l : list ascii) : bool := forallb (fun c => negb (isupper c)) l.
Definition no_space (l : list ascii) : bool := forallb (fun c => negb (is_space c)) l.
Definition no_whitespace (l : list ascii) : bool := forallb (fun c => negb (isspace c)) l.

(** What the normalizer guarantees of a name: no capital, no space
    character, no run of underscores, no underscore at either end. *)
Record normal_form (l : list ascii) : Prop := {
  nf_upper : no_upper l = true;
  nf_space : no_space l = true;
  nf_double : has_double_underscore l = false;
  nf_start : starts_with_underscore l = false;
  nf_end : ends_with_underscore l = false
}.

Definition normalized (name : string) : Prop := normal_form (chars name).

(** The normal form as the specification words it: no whitespace of any
    kind. *)
Definition normalized_as_specified (name : string) : Prop :=
  no_upper (chars name) = true /\ no_whitespace (chars name) = true /\
  has_double_underscore (chars name) = false /\
  starts_with_underscore (chars name) = false /\
  ends_with_underscore (chars name) = false.

(** A name with a tab between two letters. *)
Definition tab_name : string := String "a" (String (ascii_of_nat 9) "b").

(* ===================================================================== *)
(** ** Data frames                                                        *)
(* ===================================================================== *)

Inductive cell : Type :=
| NaN
| Int (z : Z)
| Str (s : string).

Record DataFrame : Type := mkDataFrame {
  columns : list string;
  rows : list (list cell)
}.

(** [snake_columns_rename]: the labels are rewritten, the data is kept,
    and the frame is returned. *)
Definition snake_columns_rename (data : DataFrame) : DataFrame :=
  {| columns := map snake_case (columns data); rows := rows data |}.

#[global] Instance cell_eq_dec : EqDecision cell.
Proof. solve_decision. Defined.

#[global] Instance cell_countable : Countable cell.
Proof.
  refine (inj_countable'
            (fun c => match c with
                      | NaN => inl tt
                      | Int z => inr (inl z)
                      | Str s => inr (inr s)
                      end)
            (fun x => match x with
                      | inl _ => NaN
                      | inr (inl z) => Int z
                      | inr (inr s) => Str s
                      end) _).
  intros []; reflexivity.
Defined.

(** The number of distinct values of a column, a missing value being one
    of them. *)
Definition distinct (cells : list cell) : nat := size (list_to_set cells : gset cell).

(** What a routine raises.  Only the kind of the exception is kept. *)
Inductive error : Type :=
| KeyError (label : string)                (* a column label that is absent *)
| UndefinedVariableError (name : string)   (* [query] on an unknown name *)
| ValueError                               (* shapes or format specifiers *)
| IndexError                               (* [iloc] out of bounds *)
| NameError (name : string).               (* a name that is not defined *)

Inductive result (A : Type) : Type :=
| Ok (a : A)
| Raise (e : error).
Arguments Ok {A} a.
Arguments Raise {A} e.

Fixpoint index_of (label : string) (labels : list string) : option nat :=
  match labels with
  | [] => None
  | l :: rest =>
      if String.eqb l label then Some 0
      else option_map S (index_of label rest)
  end.

Definition column_at (i : nat) (data : DataFrame) : list cell :=
  map (fun r => nth i r NaN) (rows data).

(** [data[column]]: the cells of the column, or [KeyError]. *)
Definition getitem (data : DataFrame) (column : string) : result (list cell) :=
  match index_of column (columns data) with
  | Some i => Ok (column_at i data)
  | None => Raise (KeyError column)
  end.

(** The data set has a column of this label. *)
Definition has_column (data : DataFrame) (column : string) : Prop :=
  index_of column (columns data) <> None.

(** [len(data)]. *)
Definition len (data : DataFrame) : nat := length (rows data).

(** The comparison of a cell with the integer [churn_value]: a missing
    value or a string is not equal to it. *)
Definition cell_is (v : Z) (c : cell) : bool :=
  match c with
  | Int z => (z =? v)%Z
  | _ => false
  end.

(** The test of a row against [churn_value], the target column being the
    column number [i]. *)
Definition is_churned (v : Z) (i : nat) (row : list cell) : bool :=
  cell_is v (nth i row NaN).

(** Python's keywords. *)
Definition keywords : list string :=
  ["False"; "None"; "True"; "and"; "as"; "assert"; "async"; "await"; "break";
   "class"; "continue"; "def"; "del"; "elif"; "else"; "except"; "finally";
   "for"; "from"; "global"; "if"; "import"; "in"; "is"; "lambda"; "nonlocal";
   "not"; "or"; "pass"; "raise"; "return"; "try"; "while"; "with"; "yield"].

(** A name that Python reads as one identifier: a letter or an underscore,
    then letters, digits and underscores, and no keyword. *)
Definition is_identifier (name : string) : bool :=
  match chars name with
  | [] => false
  | c :: rest =>
      (is_az c || is_AZ c || is_underscore c) &&
      forallb (fun c => is_az c || is_AZ c || is_09 c || is_underscore c) rest &&
      negb (bool_decide (name ∈ keywords))
  end.

(** [data.query(f'{name} == @v')] and [data.query(f'{name} != @v')]:
    the rows that pass the test, under the same labels.  The source pastes
    the name into the expression that [query] parses, so this is what the
    call does for a name that is an identifier ([is_identifier]), as the
    default 'target' is; any other name (one with a space, a keyword, an
    expression) is parsed as something else, or not at all, and is
    outside the embedding.  The properties that use the result of [query]
    state [is_identifier] as a hypothesis. *)
Definition query (keep : bool -> bool) (data : DataFrame) (name : string) (v : Z)
  : result DataFrame :=
  match index_of name (columns data) with
  | Some i =>
      Ok {| columns := columns data;
            rows := List.filter (fun r => keep (is_churned v i r)) (rows data) |}
  | None => Raise (UndefinedVariableError name)
  end.

Definition query_eq := query (fun b => b).
Definition query_ne := query negb.

(* --------------------------------------------------------------------- *)
(** *** Series: unique, value_counts, arithmetic                          *)
(* --------------------------------------------------------------------- *)

Definition Series (A : Type) : Type := list (cell * A).

Definition index {A} (s : Series A) : list cell := map fst s.
Definition values {A} (s : Series A) : list A := map snd s.

(** [s.iloc[i]]. *)
Definition iloc {A} (s : Series A) (i : nat) : result A :=
  match nth_error (values s) i with
  | Some a => Ok a
  | None => Raise IndexError
  end.

Definition mem (c : cell) (l : list cell) : bool := bool_decide (c ∈ l).

(** [Series.unique()]: the distinct cells in order of first appearance;
    a missing value is one of them. *)
Fixpoint unique_from (seen : list cell) (col : list cell) : list cell :=
  match col with
  | [] => []
  | c :: rest =>
      if mem c seen then unique_from seen rest
      else c :: unique_from (c :: seen) rest
  end.

Definition unique (col : list cell) : list cell := unique_from [] col.

Definition is_nan (c : cell) : bool :=
  match c with NaN => true | _ => false end.

Definition dropna (col : list cell) : list cell :=
  List.filter (fun c => negb (is_nan c)) col.

Definition occurrences (v : cell) (col : list cell) : nat :=
  length (List.filter (fun c => bool_decide (c = v)) col).

Fixpoint insert_desc (e : cell * nat) (l : list (cell * nat)) : list (cell * nat) :=
  match l with
  | [] => [e]
  | y :: rest =>
      if (snd y <=? snd e)%nat then e :: l else y :: insert_desc e rest
  end.

(** Sort by count, largest first.  Equal counts stay in order of first
    appearance here; pandas does not fix their order, and no property
    below depends on it. *)
Fixpoint sort_desc (l : list (cell * nat)) : list (cell * nat) :=
  match l with
  | [] => []
  | e :: rest => insert_desc e (sort_desc rest)
  end.

(** [value_counts()] with its defaults: missing values are not counted,
    the most frequent value comes first. *)
Definition value_counts (col : list cell) : Series nat :=
  sort_desc (map (fun v => (v, occurrences v col)) (unique (dropna col))).

(** Round half to even, to an integer. *)
Definition rint (x : Q) : Z :=
  let f := Qfloor x in
  match (x - inject_Z f ?= 1 # 2)%Q with
  | Lt => f
  | Gt => (f + 1)%Z
  | Eq => if Z.even f then f else (f + 1)%Z
  end.

Definition pow10 (d : Z) : Q := Qpower (10 # 1) d.

Definition of_nat (n : nat) : Q := inject_Z (Z.of_nat n).

(* --------------------------------------------------------------------- *)
(** *** Doubles                                                           *)
(* --------------------------------------------------------------------- *)

(** A finite double is a rational [m * 2^e] whose significand [m] has at
    most 53 bits.  An operation of the source on doubles gives the double
    nearest to the exact result, a tie going to the even significand.
    The exponent is not bounded here: the values met (counts, shares up
    to 100, powers of ten) stay far from overflow and from the
    subnormal numbers for the precisions the properties cover. *)

Definition two_to (e : Z) : Q := Qpower 2 e.

(** The exponent of the last bit of the significand of [x]:
    [2^52 <= |x| / 2^e < 2^53].  The binary logarithms of numerator and
    denominator give it up to one. *)
Definition exponent (x : Q) : Z :=
  let e0 := (Z.log2 (Z.abs (Qnum x)) - Z.log2 (Zpos (Qden x)) - 53)%Z in
  if Qle_bool (two_to 53) (Qabs x / two_to e0) then (e0 + 1)%Z else e0.

(** The double nearest to [x], ties to even. *)
Definition fl (x : Q) : Q :=
  if Qeq_bool x 0 then 0%Q
  else Qred (inject_Z (rint (x / two_to (exponent x))) * two_to (exponent x)).

Definition fadd (x y : Q) : Q := fl (x + y).
Definition fmul (x y : Q) : Q := fl (x * y).
Definition fdiv (x y : Q) : Q := fl (x / y).

(** An integer count taken as a double. *)
Definition to_double (n : nat) : Q := fl (of_nat n).

(** numpy's [power_of_ten]: a table up to [10^8], and from [10^9] on a
    loop that multiplies by ten. *)
Fixpoint times_ten (k : nat) (r : Q) : Q :=
  match k with
  | O => r
  | S k => times_ten k (fmul r 10)
  end.

Definition power_of_ten (n : nat) : Q :=
  if (n <? 9)%nat then inject_Z (10 ^ Z.of_nat n)
  else times_ten (n - 9) (inject_Z (10 ^ 9)).

(** [numpy.round(x, d)], which [Series.round] calls: multiply by
    [10^d], round to an integer (half to even), divide by [10^d]; for a
    negative [d], divide by [10^-d], round, multiply. *)
Definition np_round (d : Z) (x : Q) : Q :=
  let f := power_of_ten (Z.abs_nat d) in
  if (0 <=? d)%Z then fdiv (inject_Z (rint (fmul x f))) f
  else fmul (inject_Z (rint (fdiv x f))) f.

(** [count / total * 100]: the integers become doubles, then a division
    and a multiplication. *)
Definition share (count total : nat) : Q :=
  fmul (fdiv (to_double count) (to_double total)) 100.

(** [(counts / total * 100).round(d)], entry by entry.  A count series
    with an entry has a positive total (the count is of rows of the same
    frame), so no entry is divided by zero. *)
Definition percentages (counts : Series nat) (total : nat) (d : Z) : Series Q :=
  map (fun e => (fst e, np_round d (share (snd e) total))) counts.

(* ===================================================================== *)
(** ** vizualization.py                                                   *)
(* ===================================================================== *)

Record PlotCfg : Type := mkPlotCfg {
  target_col : string;
  churn_value : Z;
  nan_label : string;
  percent_decimals : Z
}.

(** [PlotCfg()]: the defaults of the data class.  The default [nan_label]
    is a display text; its ASCII part stands for it here. *)
Definition default_cfg : PlotCfg :=
  {| target_col := "target"; churn_value := 1; nan_label := "Nan/";
     percent_decimals := 1 |}.

(* --------------------------------------------------------------------- *)
(** *** The plotting library, as a record of calls                        *)
(* --------------------------------------------------------------------- *)

(** A grid cell (row, column) of the current figure. *)
Definition axis : Type := (nat * nat)%type.

(** The texts the routines build, by kind and by what they interpolate. *)
Inductive title : Type :=
| TitleRatio (column : string)          (* pie chart of a column *)
| TitleDistribution (column : string)   (* bar chart of a column *)
| TitleHistogram (column : string)
| TitleSpread (column : string)         (* box plot *)
| TitleCompare (column : string)
| TitleCompareShare (column : string).

Inductive axis_label : Type :=
| LabelSubscribers | LabelValue | LabelShare | LabelColumn (column : string).

Inductive legend : Type := Churned | Retained.

(** [f'{count}\n({pct}%)'] and [f'{height:.{d}f}%\n({count})']. *)
Inductive text : Type :=
| CountPct (count : nat) (pct : Q)
| PctCount (decimals : Z) (height : Q) (count : nat).

(** A rectangle of a bar chart: [get_x] is its left edge. *)
Record bar : Type := mkBar {
  get_x : Q;
  get_height : Q;
  get_width : Q
}.

Inductive call : Type :=
| Subplots (nrows ncols : nat) (figsize : Q * Q)
| AxPie (ax : axis) (x : list nat) (labels : list cell) (autopct_decimals : Z)
| AxBar (ax : axis) (bars : list bar) (label : option legend)
| AxSetTitle (ax : axis) (t : title)
| AxSetXLabel (ax : axis) (l : axis_label)
| AxSetYLabel (ax : axis) (l : axis_label)
| AxSetYLim (ax : axis) (lo hi : Q)
| AxSetXTicks (ax : axis) (ticks : list Q)
| AxSetXTickLabels (ax : axis) (labels : list cell)
| AxText (ax : axis) (x y : Q) (s : text)
| AxAxisOff (ax : axis)
| AxLegend (ax : axis)
| AxGrid (ax : axis)
| PltTightLayout
| PltShow
| SeriesHist (data : list cell) (bins : nat)
| SeriesBox (data : list cell)
| FrameHistStep (data : list cell) (label : legend) (same_axes : bool)
| PltTitle (t : title)
| PltXLabel (l : axis_label)
| PltYLabel (l : axis_label)
| PltGrid.

(** A routine: the calls made so far, and a value or the exception that
    stopped it. *)
Definition Plot (A : Type) : Type := (list call * result A)%type.

Definition ret {A} (a : A) : Plot A := ([], Ok a).

Definition bind {A B} (m : Plot A) (k : A -> Plot B) : Plot B :=
  match m with
  | (w, Ok a) => let (w', r) := k a in (w ++ w', r)
  | (w, Raise e) => (w, Raise e)
  end.

Definition emit (c : call) : Plot unit := ([c], Ok tt).
Definition lift {A} (r : result A) : Plot A := ([], r).

Notation "x <- m ;; k" := (bind m (fun x => k))
  (at level 100, m at next level, right associativity).
Notation "m ;; k" := (bind m (fun _ => k))
  (at level 100, right associativity).

Fixpoint for_each {A} (l : list A) (body : A -> Plot unit) : Plot unit :=
  match l with
  | [] => ret tt
  | x :: rest => body x ;; for_each rest body
  end.

Definition calls {A} (m : Plot A) : list call := fst m.
Definition outcome {A} (m : Plot A) : result A := snd m.

(** [enumerate(l)]. *)
Definition enumerate {A} (l : list A) : list (nat * A) :=
  combine (seq 0 (length l)) l.

(** The array of axes [plt.subplots(nrows, ncols)] returns: one row is
    squeezed to a vector. *)
Inductive axes : Type :=
| Axes1D (ncols : nat)
| Axes2D (nrows ncols : nat).

(** The axes of a grid of two columns: [plt.subplots(1, 2)] returns a
    vector, [plt.subplots(nrows, 2)] with more rows a matrix. *)
Definition grid_axes (nrows : nat) : axes :=
  if (nrows =? 1)%nat then Axes1D 2 else Axes2D nrows 2.

(** [plt.subplots(nrows, 2, figsize=...)]; a grid needs a row: without
    one the call raises and makes nothing. *)
Definition subplots (nrows : nat) (figsize : Q * Q) : Plot axes :=
  if (nrows =? 0)%nat then lift (Raise ValueError)
  else emit (Subplots nrows 2 figsize) ;; ret (grid_axes nrows).

(** [axes[row, col]]. *)
Definition axes_at2 (a : axes) (row col : nat) : result axis :=
  match a with
  | Axes2D r c =>
      if (row <? r)%nat && (col <? c)%nat then Ok (row, col) else Raise IndexError
  | Axes1D _ => Raise IndexError
  end.

(** [axes[col]], for a vector of axes (of a matrix it is a row, which
    is no axis to draw on). *)
Definition axes_at1 (a : axes) (col : nat) : result axis :=
  match a with
  | Axes1D c => if (col <? c)%nat then Ok (0, col)%nat else Raise IndexError
  | Axes2D _ _ => Raise ValueError
  end.

(** [axes[-1, -1]] and [axes[-1]]. *)
Definition axes_last2 (a : axes) : result axis :=
  match a with
  | Axes2D r c => axes_at2 a (r - 1) (c - 1)
  | Axes1D _ => Raise IndexError
  end.

Definition axes_last1 (a : axes) : result axis :=
  match a with
  | Axes1D c => axes_at1 a (c - 1)
  | Axes2D _ _ => Raise ValueError
  end.

(** [axes[row, col] if nrows > 1 else axes[col]], at the cell of the
    chart number [idx] (lines 50-52). *)
Definition select_axis (axs : axes) (nrows idx : nat) : result axis :=
  let row := (idx / 2)%nat in
  let col := (idx mod 2)%nat in
  if (1 <? nrows)%nat then axes_at2 axs row col else axes_at1 axs col.

(** [axes[-1, -1]] if [nrows > 1], else [axes[-1]] (lines 86-89). *)
Definition last_axis (axs : axes) (nrows : nat) : result axis :=
  if (1 <? nrows)%nat then axes_last2 axs else axes_last1 axs.

(** Broadcasting of two vectors to one shape: equal lengths, or a vector
    of length one is stretched to the other's length. *)
Definition broadcast {A B} (xs : list A) (ys : list B) : result (list (A * B)) :=
  if (length xs =? length ys)%nat then Ok (combine xs ys)
  else match xs, ys with
       | [x], _ => Ok (map (fun y => (x, y)) ys)
       | _, [y] => Ok (map (fun x => (x, y)) xs)
       | _, _ => Raise ValueError
       end.

(** [ax.bar(x, height, width, label=...)]: the bars are centred on [x]. *)
Definition ax_bar (ax : axis) (x height : list Q) (width : Q) (label : option legend)
  : Plot (list bar) :=
  xh <- lift (broadcast x height) ;;
  let bars := map (fun p => mkBar (fst p - width / 2) (snd p) width) xh in
  emit (AxBar ax bars label) ;;
  ret bars.

(** The precision of [f'{x:.{d}f}'] cannot be negative. *)
Definition check_precision (d : Z) : Plot unit :=
  if (d <? 0)%Z then lift (Raise ValueError) else ret tt.

(** [np.arange(n)] and [range(n)], as positions on an axis. *)
Definition arange (n : nat) : list Q := map of_nat (seq 0 n).

(* --------------------------------------------------------------------- *)
(** *** category_graph                                                    *)
(* --------------------------------------------------------------------- *)

(** [max(values.values)]; Python's [max] rejects an empty sequence. *)
Definition max_of (l : list nat) : result nat :=
  match l with
  | [] => Raise ValueError
  | x :: rest => Ok (fold_left Nat.max rest x)
  end.

(** The pie chart of a column (lines 60-64).  [ax.pie] refuses wedge
    sizes that add up to zero, those of an empty series among them, with
    a ValueError.  The [autopct] function is called once per wedge and
    formats with [percent_decimals]. *)
Definition pie_chart (cfg : PlotCfg) (ax : axis) (column : string) (counts : Series nat)
  : Plot unit :=
  (if (fold_right Nat.add 0%nat (values counts) =? 0)%nat then lift (Raise ValueError)
   else check_precision (percent_decimals cfg)) ;;
  emit (AxPie ax (values counts) (index counts) (percent_decimals cfg)) ;;
  emit (AxSetTitle ax (TitleRatio column)).

(** The bar chart of a column (lines 68-82). *)
Definition bar_chart (ax : axis) (column : string) (counts : Series nat) (pcts : Series Q)
  : Plot unit :=
  ax_bar ax (arange (length counts)) (map of_nat (values counts)) (4 # 5) None ;;
  emit (AxSetXTicks ax (arange (length counts))) ;;
  emit (AxSetXTickLabels ax (index counts)) ;;
  emit (AxSetTitle ax (TitleDistribution column)) ;;
  emit (AxSetYLabel ax LabelSubscribers) ;;
  max_value <- lift (max_of (values counts)) ;;
  emit (AxSetYLim ax 0 (fmul (to_double max_value) (fl (6 # 5)))) ;;
  for_each (enumerate (combine (values counts) (values pcts)))
    (fun e =>
       let i := fst e in
       let count := fst (snd e) in
       let pct := snd (snd e) in
       emit (AxText ax (of_nat i)
               (fadd (to_double count) (fmul (to_double max_value) (fl (1 # 50))))
               (CountPct count pct))).

Inductive chart_kind : Type := PieChart | BarChart.

(** The test of line 58: [len(data[column].unique()) <= 2]. *)
Definition chart_kind_of (cells : list cell) : chart_kind :=
  if (length (unique cells) <=? 2)%nat then PieChart else BarChart.

(** The body of the loop of [category_graph] (lines 50-82). *)
Definition category_chart (data : DataFrame) (cfg : PlotCfg) (axs : axes) (nrows : nat)
    (idx : nat) (column : string) : Plot unit :=
  ax <- lift (select_axis axs nrows idx) ;;
  counted <- lift (getitem data column) ;;
  let counts := value_counts counted in
  let pcts := percentages counts (len data) (percent_decimals cfg) in
  cells <- lift (getitem data column) ;;
  match chart_kind_of cells with
  | PieChart => pie_chart cfg ax column counts
  | BarChart => bar_chart ax column counts pcts
  end.

Definition category_graph (data : DataFrame) (columns : list string) (cfg : PlotCfg)
  : Plot unit :=
  let n := length columns in
  let nrows := ((n + 1) / 2)%nat in
  axs <- subplots nrows (12%Q, of_nat (4 * nrows)) ;;
  for_each (enumerate columns)
    (fun e => category_chart data cfg axs nrows (fst e) (snd e)) ;;
  (if negb (n mod 2 =? 0)%nat then
     ax <- lift (last_axis axs nrows) ;;
     emit (AxAxisOff ax)
   else ret tt) ;;
  emit PltTightLayout ;;
  emit PltShow.

(* --------------------------------------------------------------------- *)
(** *** numeric_graph                                                     *)
(* --------------------------------------------------------------------- *)

Definition numeric_chart (data : DataFrame) (column : string) : Plot unit :=
  hist_cells <- lift (getitem data column) ;;
  emit (SeriesHist hist_cells 30) ;;
  emit (PltTitle (TitleHistogram column)) ;;
  emit (PltXLabel LabelValue) ;;
  emit (PltYLabel LabelSubscribers) ;;
  emit PltShow ;;
  box_cells <- lift (getitem data column) ;;
  emit (SeriesBox box_cells) ;;
  emit (PltTitle (TitleSpread column)) ;;
  emit PltGrid ;;
  emit PltShow.

Definition numeric_graph (data : DataFrame) (num_cols : list string) (cfg : PlotCfg)
  : Plot unit :=
  for_each num_cols (numeric_chart data).

(* --------------------------------------------------------------------- *)
(** *** category_graph_compare                                            *)
(* --------------------------------------------------------------------- *)

Definition bar_width : Q := 7 # 20.

(** The two annotations of one pair of bars (lines 164-170). *)
Definition label_pair (cfg : PlotCfg) (ax : axis)
    (churned_counts retained_counts : Series nat) (e : nat * (bar * bar)) : Plot unit :=
  let i := fst e in
  let bar1 := fst (snd e) in
  let bar2 := snd (snd e) in
  check_precision (percent_decimals cfg) ;;
  c1 <- lift (iloc churned_counts i) ;;
  emit (AxText ax (get_x bar1 + get_width bar1 / 2) (get_x bar1 + 1)
          (PctCount (percent_decimals cfg) (get_height bar1) c1)) ;;
  check_precision (percent_decimals cfg) ;;
  c2 <- lift (iloc retained_counts i) ;;
  emit (AxText ax (get_x bar2 + get_width bar2 / 2) (get_x bar2 + 1)
          (PctCount (percent_decimals cfg) (get_height bar2) c2)).

(** The chart of one column, from the counts and percentages of the two
    cohorts (lines 150-181). *)
Definition compare_chart (cfg : PlotCfg) (column : string)
    (churned_counts : Series nat) (churned_pct : Series Q)
    (retained_counts : Series nat) (retained_pct : Series Q) : Plot unit :=
  emit (Subplots 1 1 (10%Q, 6%Q)) ;;
  let ax : axis := (0, 0)%nat in
  let x_pos := arange (length churned_pct) in
  bars1 <- ax_bar ax (map (fun x => x - bar_width / 2)%Q x_pos) (values churned_pct)
             bar_width (Some Churned) ;;
  bars2 <- ax_bar ax (map (fun x => x + bar_width / 2)%Q x_pos) (values retained_pct)
             bar_width (Some Retained) ;;
  emit (AxSetYLim ax 0 105) ;;
  for_each (enumerate (combine bars1 bars2))
    (label_pair cfg ax churned_counts retained_counts) ;;
  emit (AxSetXLabel ax LabelValue) ;;
  emit (AxSetYLabel ax LabelShare) ;;
  emit (AxSetTitle ax (TitleCompare column)) ;;
  emit (AxSetXTicks ax x_pos) ;;
  emit (AxSetXTickLabels ax (index churned_pct)) ;;
  emit (AxLegend ax) ;;
  emit (AxGrid ax) ;;
  emit PltTightLayout ;;
  emit PltShow.

(** The body of the loop of [category_graph_compare] (lines 140-181). *)
Definition compare_column (cfg : PlotCfg) (churned_data retained_data : DataFrame)
    (column : string) : Plot unit :=
  churned_cells <- lift (getitem churned_data column) ;;
  let churned_counts := value_counts churned_cells in
  let churned_total := len churned_data in
  retained_cells <- lift (getitem retained_data column) ;;
  let retained_counts := value_counts retained_cells in
  let retained_total := len retained_data in
  let churned_pct := percentages churned_counts churned_total (percent_decimals cfg) in
  let retained_pct := percentages retained_counts retained_total (percent_decimals cfg) in
  compare_chart cfg column churned_counts churned_pct retained_counts retained_pct.

Definition category_graph_compare (data : DataFrame) (cat_columns : list string)
    (cfg : PlotCfg) : Plot unit :=
  churned_data <- lift (query_eq data (target_col cfg) (churn_value cfg)) ;;
  retained_data <- lift (query_ne data (target_col cfg) (churn_value cfg)) ;;
  for_each cat_columns (compare_column cfg churned_data retained_data).

(* --------------------------------------------------------------------- *)
(** *** numeric_graph_compare                                             *)
(* --------------------------------------------------------------------- *)

Definition numeric_compare_chart (churned_data retained_data : DataFrame)
    (column : string) : Plot unit :=
  churned_cells <- lift (getitem churned_data column) ;;
  emit (FrameHistStep churned_cells Churned false) ;;
  retained_cells <- lift (getitem retained_data column) ;;
  emit (FrameHistStep retained_cells Retained true) ;;
  emit (PltTitle (TitleCompareShare column)) ;;
  emit (PltXLabel (LabelColumn column)) ;;
  emit (PltYLabel LabelSubscribers) ;;
  emit PltShow.

Definition numeric_graph_compare (data : DataFrame) (num_cols : list string)
    (cfg : PlotCfg) : Plot unit :=
  churned_data <- lift (query_eq data (target_col cfg) (churn_value cfg)) ;;
  retained_data <- lift (query_ne data (target_col cfg) (churn_value cfg)) ;;
  for_each num_cols (numeric_compare_chart churned_data retained_data).

(* ===================================================================== *)
(** ** Vocabulary of the properties                                       *)
(* ===================================================================== *)





Definition sum_nat (l : list nat) : nat := fold_right Nat.add 0%nat l.
Definition sum_Q (l : list Q) : Q := fold_right Qplus 0%Q l.

(** The error of one rounding to [d] decimals: half a unit of the last
    decimal kept. *)
Definition half_unit (d : Z) : Q := ((1 # 2) / pow10 d)%Q.

(** The share of [count] in [total] as a real number, in percent. *)
Definition exact_share (count total : nat) : Q := (of_nat count / of_nat total * 100)%Q.

(** The unit roundoff of doubles, [2^-53]. *)
Definition unit_roundoff : Q := 1 # (2 ^ 53).

(** What the arithmetic in doubles can add to the error of a rounded
    percentage: less than a thousand unit roundoffs of a value up to 100. *)
Definition float_slack : Q := 1 # (10 ^ 12).

(* --------------------------------------------------------------------- *)
(** *** Data sets of the examples                                         *)
(* --------------------------------------------------------------------- *)

(** The scenario of the specification: target [1,1,0,0,0], plan
    [A,A,B,B,B]. *)
Definition scenario : DataFrame :=
  {| columns := ["target"; "plan"];
     rows := [[Int 1; Str "A"]; [Int 1; Str "A"];
              [Int 0; Str "B"]; [Int 0; Str "B"]; [Int 0; Str "B"]] |}.

Definition scenario_churned : DataFrame :=
  {| columns := ["target"; "plan"]; rows := [[Int 1; Str "A"]; [Int 1; Str "A"]] |}.

Definition scenario_retained : DataFrame :=
  {| columns := ["target"; "plan"];
     rows := [[Int 0; Str "B"]; [Int 0; Str "B"]; [Int 0; Str "B"]] |}.

(** A data set with a missing plan: target [1,1,0], plan [A, NaN, B]. *)
Definition with_missing : DataFrame :=
  {| columns := ["target"; "plan"];
     rows := [[Int 1; Str "A"]; [Int 1; NaN]; [Int 0; Str "B"]] |}.

(** A data set without a churned row: target [0,0], plan [A,A]. *)
Definition nobody_left : DataFrame :=
  {| columns := ["target"; "plan"]; rows := [[Int 0; Str "A"]; [Int 0; Str "A"]] |}.

(** A data set whose cohorts have two and three plans:
    churned [A,B,B], retained [B,C,C,C,A,A]. *)
Definition uneven : DataFrame :=
  {| columns := ["target"; "plan"];
     rows := [[Int 1; Str "A"]; [Int 1; Str "B"]; [Int 1; Str "B"];
              [Int 0; Str "B"]; [Int 0; Str "C"]; [Int 0; Str "C"];
              [Int 0; Str "C"]; [Int 0; Str "A"]; [Int 0; Str "A"]] |}.

(** A data set whose cohorts rank their two plans differently:
    churned [A,A,B], retained [B,B,A]. *)
Definition swapped : DataFrame :=
  {| columns := ["target"; "plan"];
     rows := [[Int 1; Str "A"]; [Int 1; Str "A"]; [Int 1; Str "B"];
              [Int 0; Str "B"]; [Int 0; Str "B"]; [Int 0; Str "A"]] |}.

(** The retained percentages of the scenario as the specification lists
    them. *)
Definition scenario_retained_as_specified : Series Q :=
  [(Str "A", 0%Q); (Str "B", 100%Q)].
From Stdlib Require Import Sorted SpecFloat.


(* ===================================================================== *)
(** ** data_prepare.py: data_info                                         *)
(* ===================================================================== *)

(** What [data_info] prints and displays, in order. *)
Inductive report : Type :=
| PrintShape (nrows ncols : nat)                          (* data.shape *)
| DisplayHead (labels : list string) (first : list (list cell))   (* data.head(2) *)
| FrameInfo (non_null : list (string * nat))              (* data.info() *)
| DisplayDescribe (data : DataFrame)                      (* data.describe().T *)
| DisplayIsna (missing : list (string * nat))             (* data.isna().sum() *)
| PrintUniqueIds (n : nat)                                (* len(data['customer_id'].unique()) *)
| PrintDuplicates (n : nat).                              (* data.duplicated().sum() *)

(** The cells of a row under the labels of the frame; a cell that the row
    lacks is missing. *)
Definition row_cells (data : DataFrame) (row : list cell) : list cell :=
  map (fun j => nth j row NaN) (seq 0 (length (columns data))).

(** [data.isna().sum()]: per column, the number of missing cells. *)
Definition isna_sum (data : DataFrame) : list (string * nat) :=
  map (fun e => (snd e, length (List.filter is_nan (column_at (fst e) data))))
      (enumerate (columns data)).

(** The non-null counts of [data.info()]. *)
Definition non_null_counts (data : DataFrame) : list (string * nat) :=
  map (fun e => (snd e, length (dropna (column_at (fst e) data))))
      (enumerate (columns data)).

(** [duplicated()]: a row is marked when an earlier row has the same
    cells (missing cells in the same places included). *)
Fixpoint duplicated_from (seen : list (list cell)) (rs : list (list cell)) : list bool :=
  match rs with
  | [] => []
  | r :: rest => bool_decide (r ∈ seen) :: duplicated_from (r :: seen) rest
  end.

Definition duplicated (data : DataFrame) : list bool :=
  duplicated_from [] (map (row_cells data) (rows data)).

(** [.sum()] of a boolean series. *)
Definition count_true (l : list bool) : nat := length (List.filter (fun b => b) l).

(** [data_info]: the shape, the first two rows, [info()], [describe()]
    (which rejects a frame without columns), the missing cells per column,
    the number of distinct customer identifiers and the number of
    duplicated rows.  The module neither imports nor defines [display]:
    the name is found only where IPython has put it among the builtins
    (an IPython session, a notebook kernel); [ipython] says whether the
    call is made there.  Elsewhere the call stops with a NameError at
    the first [display], after the shape is printed.  The labels are
    taken to be pairwise distinct, so that ['customer_id'] names one
    column. *)
Definition data_info (ipython : bool) (data : DataFrame) : list report * result unit :=
  let shape := [PrintShape (len data) (length (columns data))] in
  if negb ipython then (shape, Raise (NameError "display"))
  else
    let shown :=
      shape ++ [DisplayHead (columns data) (firstn 2 (rows data));
                FrameInfo (non_null_counts data)] in
    match columns data with
    | [] => (shown, Raise ValueError)
    | _ :: _ =>
        let shown := shown ++ [DisplayDescribe data; DisplayIsna (isna_sum data)] in
        match getitem data "customer_id" with
        | Raise e => (shown, Raise e)
        | Ok ids =>
            (shown ++ [PrintUniqueIds (length (unique ids));
                       PrintDuplicates (count_true (duplicated data))],
             Ok tt)
        end
    end.

(** The number of distinct rows of the frame. *)
Definition distinct_rows (data : DataFrame) : nat :=
  size (list_to_set (map (row_cells data) (rows data)) : gset (list cell)).

(** A frame with a repeated row and a repeated identifier. *)
Definition customers : DataFrame :=
  {| columns := ["CustomerID"; "Total Charge"];
     rows := [[Int 7; Int 10]; [Int 8; NaN]; [Int 7; Int 10]; [Int 8; Int 3]] |}.

(* --------------------------------------------------------------------- *)
(** *** Vocabulary of the further properties                              *)
(* --------------------------------------------------------------------- *)

(** A separator of words in a name: the space or the underscore. *)
Definition is_separator (c : ascii) : bool := is_space c || is_underscore c.

(** The characters of a name that are no separators, in order. *)
Definition letters (l : list ascii) : list ascii :=
  List.filter (fun c => negb (is_separator c)) l.

Definition not_underscore (c : ascii) : bool := negb (is_underscore c).

(** A run over [pre ++ column :: post] that stops at [column]: it makes
    the calls of the run over [pre], then raises KeyError for [column]
    unless the run over [pre] has raised already. *)
Definition stops_at (run : list string -> Plot unit) (pre : list string)
    (column : string) (post : list string) : Prop :=
  calls (run (pre ++ column :: post)) = calls (run pre) /\
  outcome (run (pre ++ column :: post)) =
    match outcome (run pre) with
    | Ok _ => Raise (KeyError column)
    | Raise e => Raise e
    end.

(** A cell that holds a number. *)
Definition is_number (c : cell) : bool :=
  match c with Int _ => true | _ => false end.

(** The calls that show a figure. *)
Definition is_show (c : call) : bool :=
  match c with PltShow => true | _ => false end.

(** The calls that write a label on a chart. *)
Definition is_text (c : call) : bool :=
  match c with AxText _ _ _ _ => true | _ => false end.

(** The order of [value_counts]: the entry [e1] is counted at least as
    often as the entry [e2]. *)
Definition by_count (e1 e2 : cell * nat) : Prop := (snd e2 <= snd e1)%nat.

(** A data set with a column of numbers: target [1,0,1], minutes
    [120,300,45]. *)
Definition usage : DataFrame :=
  {| columns := ["target"; "minutes"];
     rows := [[Int 1; Int 120]; [Int 0; Int 300]; [Int 1; Int 45]] |}.


(* --------------------------------------------------------------------- *)
(** *** The doubles of the Standard Library, for comparison               *)
(* --------------------------------------------------------------------- *)

(** The same computations on [spec_float], the specification of IEEE 754
    arithmetic of the Standard Library, at 53 bits of precision and the
    exponent range of binary64. *)
Definition binary64_of_Z (z : Z) : spec_float := binary_normalize 53 1024 z 0 false.

Definition binary64_to_Q (f : spec_float) : Q :=
  match f with
  | S754_finite s m e => Qred ((if s then -1 else 1) * inject_Z (Zpos m) * two_to e)
  | _ => 0%Q
  end.

Definition binary64_share (count total : nat) : spec_float :=
  SFmul 53 1024
    (SFdiv 53 1024 (binary64_of_Z (Z.of_nat count)) (binary64_of_Z (Z.of_nat total)))
    (binary64_of_Z 100).

Definition binary64_round (d : nat) (x : spec_float) : spec_float :=
  let f := binary64_of_Z (10 ^ Z.of_nat d) in
  SFdiv 53 1024 (binary64_of_Z (rint (binary64_to_Q (SFmul 53 1024 x f)))) f.

(** The limit of the y axis of a bar chart and the height of a label,
    the literals 1.2 and 0.02 being the doubles nearest to 6/5 and 1/50. *)
Definition binary64_limit (m : nat) : spec_float :=
  SFmul 53 1024 (binary64_of_Z (Z.of_nat m))
    (SFdiv 53 1024 (binary64_of_Z 6) (binary64_of_Z 5)).

Definition binary64_height (count m : nat) : spec_float :=
  SFadd 53 1024 (binary64_of_Z (Z.of_nat count))
    (SFmul 53 1024 (binary64_of_Z (Z.of_nat m))
       (SFdiv 53 1024 (binary64_of_Z 1) (binary64_of_Z 50))).

(** The shares of [count] rows in [total], for every [count <= total]
    and [total <= n], their roundings to 0..3 decimals, and the limits
    and label heights of the bar charts of such counts, agree in the two
    models. *)
Definition doubles_agree_up_to (n : nat) : bool :=
  forallb (fun total =>
    forallb (fun count =>
      Qeq_bool (share count total) (binary64_to_Q (binary64_share count total)) &&
      Qeq_bool (fmul (to_double total) (fl (6 # 5)))
               (binary64_to_Q (binary64_limit total)) &&
      Qeq_bool (fadd (to_double count) (fmul (to_double total) (fl (1 # 50))))
               (binary64_to_Q (binary64_height count total)) &&
      forallb (fun d =>
        Qeq_bool (np_round (Z.of_nat d) (share count total))
                 (binary64_to_Q (binary64_round d (binary64_share count total))))
        (seq 0 4))
      (seq 0 (S total)))
    (seq 1 n).

(* ===================================================================== *)
(** ** Properties of the column-name normalizer                           *)
(* ===================================================================== *)

(** Facts about single characters are checked on all 256 of them. *)
Ltac by_cases_on_char c :=
  destruct c as [[] [] [] [] [] [] [] []]; vm_compute; try reflexivity; try discriminate.

Lemma lower_char_not_upper c : isupper (lower_char c) = false.
Proof. by_cases_on_char c. Qed.

Lemma not_upper_lower_char c : isupper c = false -> lower_char c = c.
Proof. unfold lower_char. intros ->. reflexivity. Qed.

Lemma not_upper_not_AZ c : isupper c = false -> is_AZ c = false.
Proof. unfold isupper. intros H. apply orb_false_elim in H. tauto. Qed.

Lemma lower_char_space c : is_space (lower_char c) = is_space c.
Proof. by_cases_on_char c. Qed.

Lemma lower_char_underscore c : is_underscore (lower_char c) = is_underscore c.
Proof. by_cases_on_char c. Qed.

Lemma is_underscore_not_space c : is_underscore c = true -> is_space c = false.
Proof. by_cases_on_char c. Qed.

Lemma is_underscore_not_upper c : is_underscore c = true -> isupper c = false.
Proof. by_cases_on_char c. Qed.

Section Strip.

Lemma lstrip_all l : forallb is_underscore l = true -> lstrip_underscores l = [].
Proof.
  induction l as [|c l IH]; simpl; [reflexivity|].
  intros H. apply andb_prop in H as [Hc Hl]. rewrite Hc. auto.
Qed.

Lemma lstrip_snoc l c :
  lstrip_underscores (l ++ [c]) =
  if forallb is_underscore l then lstrip_underscores [c]
  else lstrip_underscores l ++ [c].
Proof.
  induction l as [|a l IH]; simpl; [reflexivity|].
  destruct (is_underscore a); simpl; [exact IH | reflexivity].
Qed.

Lemma forallb_rev {A} (f : A -> bool) l : forallb f (rev l) = forallb f l.
Proof.
  induction l as [|a l IH]; simpl; [reflexivity|].
  rewrite forallb_app, IH. simpl. rewrite andb_true_r. apply andb_comm.
Qed.

(** [rstrip] read from the left. *)
Lemma rstrip_cons c l :
  rstrip_underscores (c :: l) =
  if is_underscore c && forallb is_underscore l then []
  else c :: rstrip_underscores l.
Proof.
  unfold rstrip_underscores. simpl. rewrite lstrip_snoc, forallb_rev.
  destruct (forallb is_underscore l) eqn:Hall.
  - rewrite andb_true_r. rewrite (lstrip_all (rev l)) by (rewrite forallb_rev; exact Hall).
    simpl. destruct (is_underscore c); reflexivity.
  - rewrite andb_false_r. rewrite rev_app_distr. reflexivity.
Qed.

Lemma rstrip_nil_all l : rstrip_underscores l = [] -> forallb is_underscore l = true.
Proof.
  induction l as [|c l IH]; [reflexivity|].
  rewrite rstrip_cons. simpl.
  destruct (is_underscore c && forallb is_underscore l) eqn:E; [auto | discriminate].
Qed.

Lemma ends_with_cons c l :
  ends_with_underscore (c :: l) =
  match l with [] => is_underscore c | _ :: _ => ends_with_underscore l end.
Proof.
  unfold ends_with_underscore. simpl.
  destruct l as [|b l]; [reflexivity|].
  simpl. destruct (rev l ++ [b]) eqn:E; [|reflexivity].
  destruct (rev l); discriminate.
Qed.

Lemma forallb_lstrip (f : ascii -> bool) l :
  forallb f l = true -> forallb f (lstrip_underscores l) = true.
Proof.
  induction l as [|c l IH]; simpl; [auto|].
  intros H. destruct (is_underscore c); [|exact H].
  apply andb_prop in H as [_ H]. auto.
Qed.

Lemma forallb_rstrip (f : ascii -> bool) l :
  forallb f l = true -> forallb f (rstrip_underscores l) = true.
Proof.
  induction l as [|c l IH]; [auto|].
  rewrite rstrip_cons. simpl. intros H. apply andb_prop in H as [Hc Hl].
  destruct (is_underscore c && forallb is_underscore l); [reflexivity|].
  simpl. rewrite Hc. auto.
Qed.

Lemma double_lstrip l :
  has_double_underscore l = false -> has_double_underscore (lstrip_underscores l) = false.
Proof.
  induction l as [|c l IH]; simpl; [auto|].
  intros H. apply orb_false_elim in H as [H1 H2].
  destruct (is_underscore c) eqn:Hc; [auto|]. simpl. rewrite Hc, H2. reflexivity.
Qed.

Lemma starts_rstrip l :
  starts_with_underscore l = false -> starts_with_underscore (rstrip_underscores l) = false.
Proof.
  destruct l as [|c l]; [auto|]. rewrite rstrip_cons. simpl. intros Hc.
  rewrite Hc. simpl. exact Hc.
Qed.

Lemma double_rstrip l :
  has_double_underscore l = false -> has_double_underscore (rstrip_underscores l) = false.
Proof.
  induction l as [|c l IH]; [auto|].
  rewrite rstrip_cons. simpl. intros H. apply orb_false_elim in H as [H1 H2].
  destruct (is_underscore c && forallb is_underscore l); [reflexivity|].
  simpl. rewrite (IH H2), orb_false_r.
  destruct (is_underscore c) eqn:Hc; [|reflexivity]. simpl in *.
  apply starts_rstrip. exact H1.
Qed.

Lemma starts_lstrip l : starts_with_underscore (lstrip_underscores l) = false.
Proof.
  induction l as [|c l IH]; simpl; [reflexivity|].
  destruct (is_underscore c) eqn:Hc; [exact IH | simpl; exact Hc].
Qed.

Lemma ends_rstrip l : ends_with_underscore (rstrip_underscores l) = false.
Proof.
  induction l as [|c l IH]; [reflexivity|].
  rewrite rstrip_cons.
  destruct (is_underscore c && forallb is_underscore l) eqn:E; [reflexivity|].
  rewrite ends_with_cons.
  destruct (rstrip_underscores l) eqn:R; [|exact IH].
  apply rstrip_nil_all in R. rewrite R, andb_true_r in E. exact E.
Qed.

Lemma lstrip_fixed l : starts_with_underscore l = false -> lstrip_underscores l = l.
Proof. destruct l as [|c l]; simpl; [auto|]. intros ->. reflexivity. Qed.

Lemma rstrip_fixed l : ends_with_underscore l = false -> rstrip_underscores l = l.
Proof.
  induction l as [|c l IH]; [reflexivity|].
  rewrite ends_with_cons, rstrip_cons. intros H.
  destruct l as [|b l].
  - simpl. rewrite H. reflexivity.
  - specialize (IH H).
    destruct (forallb is_underscore (b :: l)) eqn:Hall.
    + assert (rstrip_underscores (b :: l) = []) as R.
      { unfold rstrip_underscores. rewrite lstrip_all; [reflexivity|].
        rewrite forallb_rev. exact Hall. }
      rewrite R in IH. discriminate.
    + rewrite andb_false_r, IH. reflexivity.
Qed.

End Strip.

Section Pipeline.

Lemma no_space_replace_space l : no_space (replace_space l) = true.
Proof.
  induction l as [|c l IH]; simpl; [reflexivity|].
  rewrite IH, andb_true_r. destruct (is_space c) eqn:E; [reflexivity|].
  rewrite E. reflexivity.
Qed.

Lemma no_space_lower l : no_space l = true -> no_space (lower l) = true.
Proof.
  induction l as [|c l IH]; simpl; [auto|].
  intros H. apply andb_prop in H as [Hc Hl].
  rewrite lower_char_space, Hc. simpl. auto.
Qed.

Lemma no_upper_lower l : no_upper (lower l) = true.
Proof.
  induction l as [|c l IH]; simpl; [reflexivity|].
  rewrite lower_char_not_upper, IH. reflexivity.
Qed.

Lemma forallb_collapse (f : ascii -> bool) l :
  forallb f l = true -> forallb f (collapse_underscores l) = true.
Proof.
  induction l as [|c l IH]; simpl; [auto|].
  intros H. apply andb_prop in H as [Hc Hl].
  destruct (is_underscore c && starts_with_underscore l); [auto|].
  simpl. rewrite Hc. auto.
Qed.

Lemma starts_collapse l :
  starts_with_underscore (collapse_underscores l) = starts_with_underscore l.
Proof.
  induction l as [|c l IH]; simpl; [reflexivity|].
  destruct (is_underscore c && starts_with_underscore l) eqn:E; [|reflexivity].
  apply andb_prop in E as [Hc Hl]. rewrite IH, Hl, Hc. reflexivity.
Qed.

Lemma double_collapse l : has_double_underscore (collapse_underscores l) = false.
Proof.
  induction l as [|c l IH]; simpl; [reflexivity|].
  destruct (is_underscore c && starts_with_underscore l) eqn:E; [exact IH|].
  simpl. rewrite starts_collapse, E, IH. reflexivity.
Qed.

Lemma camel_split_fixed l : no_upper l = true -> camel_split l = l.
Proof.
  induction l as [|a l IH]; [reflexivity|].
  intros H. simpl in H. apply andb_prop in H as [_ Hl]. specialize (IH Hl).
  destruct l as [|b t]; [reflexivity|].
  simpl in Hl. apply andb_prop in Hl as [Hb _].
  apply negb_true_iff, not_upper_not_AZ in Hb.
  change (camel_split (a :: b :: t)) with
    (if (is_az a || is_09 a) && is_AZ b
     then a :: space :: b :: camel_split t
     else a :: camel_split (b :: t)).
  rewrite Hb, andb_false_r, IH. reflexivity.
Qed.

Lemma replace_space_fixed l : no_space l = true -> replace_space l = l.
Proof.
  induction l as [|c l IH]; simpl; [auto|].
  intros H. apply andb_prop in H as [Hc Hl].
  apply negb_true_iff in Hc. rewrite Hc, (IH Hl). reflexivity.
Qed.

Lemma lower_fixed l : no_upper l = true -> lower l = l.
Proof.
  induction l as [|c l IH]; simpl; [auto|].
  intros H. apply andb_prop in H as [Hc Hl].
  apply negb_true_iff in Hc. rewrite (not_upper_lower_char c Hc), (IH Hl). reflexivity.
Qed.

Lemma collapse_fixed l : has_double_underscore l = false -> collapse_underscores l = l.
Proof.
  induction l as [|c l IH]; simpl; [auto|].
  intros H. apply orb_false_elim in H as [H1 H2]. rewrite H1, (IH H2). reflexivity.
Qed.

Lemma strip_fixed l :
  starts_with_underscore l = false -> ends_with_underscore l = false ->
  strip_underscores l = l.
Proof.
  intros Hs He. unfold strip_underscores.
  rewrite (lstrip_fixed l Hs). apply rstrip_fixed, He.
Qed.

(** What the chain of methods guarantees of its result. *)
Lemma snake_chars_normal_form l : normal_form (snake_chars l).
Proof.
  unfold snake_chars, strip_underscores.
  set (s := lower (replace_space (camel_split l))).
  assert (no_upper s = true) as Hu by apply no_upper_lower.
  assert (no_space s = true) as Hs by apply no_space_lower, no_space_replace_space.
  split.
  - apply forallb_rstrip, forallb_lstrip, forallb_collapse, Hu.
  - apply forallb_rstrip, forallb_lstrip, forallb_collapse, Hs.
  - apply double_rstrip, double_lstrip, double_collapse.
  - apply starts_rstrip, starts_lstrip.
  - apply ends_rstrip.
Qed.

Lemma normal_form_fixed l : normal_form l -> snake_chars l = l.
Proof.
  intros [Hu Hs Hd Hb He]. unfold snake_chars.
  rewrite (camel_split_fixed l Hu), (replace_space_fixed l Hs), (lower_fixed l Hu),
    (collapse_fixed l Hd).
  apply strip_fixed; assumption.
Qed.

Lemma chars_snake_case name : chars (snake_case name) = snake_chars (chars name).
Proof. unfold chars, snake_case. apply list_ascii_of_string_of_list_ascii. Qed.

End Pipeline.

(** C7.  The normalizer maps "CustomerID Churn" to "customer_id_churn":
    the first step puts a space between "r" and "I" (and nowhere else),
    the spaces become underscores and the capitals are lowered; there is
    no run of underscores to collapse and none to strip. *)
Theorem snake_case_customer_id_churn :
  snake_case "CustomerID Churn" = "customer_id_churn" /\
  camel_split (chars "CustomerID Churn") = chars "Customer ID Churn" /\
  columns (snake_columns_rename (mkDataFrame ["CustomerID Churn"] [])) =
    ["customer_id_churn"].
Proof. repeat split; reflexivity. Qed.

(** C1, the claim as stated fails: a tab is whitespace, and the normalizer
    leaves the name "a<TAB>b" as it is. *)
Lemma snake_case_tab_keeps_whitespace :
  In tab_name (columns (mkDataFrame [tab_name] [])) /\
  snake_case tab_name = tab_name /\
  existsb isspace (chars (snake_case tab_name)) = true /\
  ~ normalized_as_specified (snake_case tab_name).
Proof.
  split; [left; reflexivity|]. split; [reflexivity|]. split; [reflexivity|].
  intros (_ & H & _). vm_compute in H. discriminate.
Qed.

(** Every character of a name of the embedding is a code point of the
    Latin-1 range. *)
Lemma chars_latin1 name c : In c (chars name) -> (code c < 256)%N.
Proof. intros _. unfold code. apply N_ascii_bounded. Qed.

(** C1 (amended).  For every column name whose characters are code
    points of the range U+0000..U+00FF, the name the normalizer produces
    has no uppercase letter, no space character (U+0020; a tab, a line
    break or another whitespace character is kept), no two consecutive
    underscores, and no underscore at its start or end; so has every
    column label of the frame that [snake_columns_rename] returns.
    Names with characters above U+00FF are not covered: there
    [str.lower] leaves some capitals as they are. *)
Theorem snake_columns_rename_normalized :
  (forall name, (forall c, In c (chars name) -> (code c < 256)%N) /\
                normalized (snake_case name)) /\
  (forall data, Forall normalized (columns (snake_columns_rename data))).
Proof.
  assert (forall name, normalized (snake_case name)) as Hname.
  { intros name. unfold normalized. rewrite chars_snake_case.
    apply snake_chars_normal_form. }
  split; [intros name; split; [apply chars_latin1 | apply Hname]|].
  intros data. unfold snake_columns_rename. simpl.
  induction (columns data) as [|name l IH]; simpl; constructor; [apply Hname | exact IH].
Qed.

(** C3.  The normalizer is idempotent: renaming the columns of a frame
    that was already renamed changes no label, and
    normalize (normalize x) = normalize x for every name x. *)
Theorem snake_columns_rename_idempotent (data : DataFrame) :
  snake_columns_rename (snake_columns_rename data) = snake_columns_rename data /\
  (forall name, snake_case (snake_case name) = snake_case name).
Proof.
  assert (forall name, snake_case (snake_case name) = snake_case name) as Hname.
  { intros name. unfold snake_case at 1. fold (chars (snake_case name)).
    rewrite chars_snake_case, normal_form_fixed by apply snake_chars_normal_form.
    reflexivity. }
  split; [|exact Hname].
  unfold snake_columns_rename. simpl. f_equal.
  rewrite map_map. apply map_ext. exact Hname.
Qed.

(* ===================================================================== *)
(** ** The record of calls                                                *)
(* ===================================================================== *)

Section PlotLaws.
Context {A B : Type}.

Lemma calls_bind (m : Plot A) (k : A -> Plot B) :
  calls (bind m k) =
  calls m ++ match outcome m with Ok a => calls (k a) | Raise _ => [] end.
Proof.
  destruct m as [w [a|e]]; simpl.
  - destruct (k a); reflexivity.
  - unfold calls; simpl. rewrite app_nil_r. reflexivity.
Qed.

Lemma outcome_bind (m : Plot A) (k : A -> Plot B) :
  outcome (bind m k) =
  match outcome m with Ok a => outcome (k a) | Raise e => Raise e end.
Proof.
  destruct m as [w [a|e]]; simpl; [|reflexivity].
  destruct (k a); reflexivity.
Qed.



End PlotLaws.

Lemma bind_lift_ok {A B} (a : A) (k : A -> Plot B) : bind (lift (Ok a)) k = k a.
Proof. unfold bind, lift. destruct (k a). reflexivity. Qed.

Lemma calls_emit c : calls (emit c) = [c].
Proof. reflexivity. Qed.

Lemma outcome_emit c : outcome (emit c) = Ok tt.
Proof. reflexivity. Qed.


Section ForEach.
Context {A : Type} (body : A -> Plot unit).

Lemma in_calls_for_each l c :
  In c (calls (for_each l body)) -> exists x, In x l /\ In c (calls (body x)).
Proof.
  induction l as [|x l IH]; simpl; [intros []|].
  rewrite calls_bind. intros H. apply in_app_or in H as [H|H].
  - exists x. auto.
  - destruct (outcome (body x)); [|destruct H].
    destruct (IH H) as (y & Hy & Hc). exists y. auto.
Qed.

Lemma for_each_ok l :
  outcome (for_each l body) = Ok tt <-> (forall x, In x l -> outcome (body x) = Ok tt).
Proof.
  induction l as [|x l IH]; simpl.
  - split; [intros _ y [] | reflexivity].
  - rewrite outcome_bind. split.
    + intros H y [<-|Hy].
      * destruct (outcome (body x)) as [[]|]; [reflexivity | discriminate].
      * destruct (outcome (body x)); [|discriminate]. apply IH; assumption.
    + intros H. rewrite (H x) by (left; reflexivity). apply IH. intros y Hy.
      apply H. right. exact Hy.
Qed.

Lemma for_each_ok_calls l x c :
  outcome (for_each l body) = Ok tt -> In x l -> In c (calls (body x)) ->
  In c (calls (for_each l body)).
Proof.
  induction l as [|y l IH]; simpl; [intros _ []|].
  rewrite outcome_bind, calls_bind. intros Hok [->|Hx] Hc.
  - apply in_or_app. left. exact Hc.
  - apply in_or_app. right.
    destruct (outcome (body y)); [|discriminate]. apply IH; assumption.
Qed.

End ForEach.

Lemma in_enumerate_from {A} (l : list A) start i x :
  In (i, x) (combine (seq start (length l)) l) <->
  (start <= i)%nat /\ nth_error l (i - start) = Some x.
Proof.
  revert start. induction l as [|y l IH]; intros start; simpl.
  - split; [intros [] | intros [_ H]]. destruct (i - start)%nat; discriminate.
  - rewrite IH. split.
    + intros [H|[Hle H]].
      * inversion H; subst. rewrite Nat.sub_diag. split; [lia | reflexivity].
      * split; [lia|]. replace (i - start)%nat with (S (i - S start)) by lia. exact H.
    + intros [Hle H]. destruct (i - start)%nat as [|k] eqn:E.
      * left. inversion H; subst. f_equal. lia.
      * right. split; [lia|]. replace (i - S start)%nat with k by lia. exact H.
Qed.

Lemma in_enumerate {A} (l : list A) i x :
  In (i, x) (enumerate l) <-> nth_error l i = Some x.
Proof.
  unfold enumerate. rewrite in_enumerate_from, Nat.sub_0_r.
  split; [intros [_ H]; exact H | intros H; split; [lia | exact H]].
Qed.

(* ===================================================================== *)
(** ** unique and value_counts                                            *)
(* ===================================================================== *)

Lemma mem_true c l : mem c l = true <-> c ∈ l.
Proof. unfold mem. apply bool_decide_eq_true. Qed.

Lemma mem_false c l : mem c l = false <-> c ∉ l.
Proof. unfold mem. apply bool_decide_eq_false. Qed.

Lemma elem_of_unique_from seen col x :
  x ∈ unique_from seen col <-> x ∈ col /\ x ∉ seen.
Proof.
  revert seen. induction col as [|c col IH]; intros seen; simpl.
  - split; [intros H; inversion H | intros [H _]; inversion H].
  - destruct (mem c seen) eqn:E.
    + apply mem_true in E. rewrite IH, elem_of_cons. split.
      * intros [H1 H2]. auto.
      * intros [[->|H1] H2]; [contradiction | auto].
    + apply mem_false in E. rewrite !elem_of_cons, IH, elem_of_cons. split.
      * intros [->|[H1 H2]]; [auto | split; [auto|]]. intros H. apply H2. auto.
      * intros [[->|H1] H2]; [auto|]. destruct (decide (x = c)) as [->|Hne]; [auto|].
        right. split; [exact H1|]. intros [H|H]; contradiction.
Qed.

Lemma NoDup_unique_from seen col : NoDup (unique_from seen col).
Proof.
  revert seen. induction col as [|c col IH]; intros seen; simpl.
  - constructor.
  - destruct (mem c seen); [apply IH|].
    apply NoDup_cons. split; [|apply IH].
    rewrite elem_of_unique_from, elem_of_cons. intros [_ H]. apply H. auto.
Qed.

Lemma elem_of_unique col x : x ∈ unique col <-> x ∈ col.
Proof.
  unfold unique. rewrite elem_of_unique_from. split; [intros [H _]; exact H|].
  intros H. split; [exact H|]. apply not_elem_of_nil.
Qed.

Lemma NoDup_unique col : NoDup (unique col).
Proof. apply NoDup_unique_from. Qed.

(** [unique] lists each distinct value once. *)
Lemma length_unique col : length (unique col) = distinct col.
Proof.
  unfold distinct. rewrite <- (size_list_to_set (C:=gset cell) (unique col)) by apply NoDup_unique.
  f_equal. apply set_eq. intros x. rewrite !elem_of_list_to_set. apply elem_of_unique.
Qed.

Lemma chart_kind_pie cells : chart_kind_of cells = PieChart <-> (distinct cells <= 2)%nat.
Proof.
  unfold chart_kind_of. rewrite length_unique.
  destruct (Nat.leb_spec (distinct cells) 2); split; (lia || discriminate || reflexivity).
Qed.

Lemma chart_kind_bar cells : chart_kind_of cells = BarChart <-> (3 <= distinct cells)%nat.
Proof.
  unfold chart_kind_of. rewrite length_unique.
  destruct (Nat.leb_spec (distinct cells) 2); split; (lia || discriminate || reflexivity).
Qed.

(** A missing cell is one more distinct value. *)
Lemma distinct_missing cells :
  distinct cells =
  (distinct (dropna cells) + if bool_decide (NaN ∈ cells) then 1 else 0)%nat.
Proof.
  unfold distinct.
  assert (forall x, x ∈ dropna cells <-> x ∈ cells /\ x <> NaN) as Hdrop.
  { intros x. rewrite !list_elem_of_In. unfold dropna. rewrite filter_In.
    destruct x; cbn; intuition congruence. }
  destruct (bool_decide_reflect (NaN ∈ cells)) as [Hin|Hout].
  - replace (list_to_set cells : gset cell)
      with ({[ NaN ]} ∪ (list_to_set (dropna cells) : gset cell)).
    + rewrite size_union, size_singleton; [lia|].
      intros x Hx1 Hx2. apply elem_of_singleton in Hx1 as ->.
      apply elem_of_list_to_set, Hdrop in Hx2 as [_ H]. congruence.
    + apply leibniz_equiv. intros x.
      rewrite elem_of_union, elem_of_singleton, !elem_of_list_to_set, Hdrop.
      split.
      * intros [->|[H _]]; assumption.
      * intros H. destruct (decide (x = NaN)) as [->|Hne]; [left; reflexivity | right; auto].
  - rewrite Nat.add_0_r. f_equal. apply leibniz_equiv. intros x.
    rewrite !elem_of_list_to_set, Hdrop. split.
    + intros H. split; [exact H|]. intros ->. contradiction.
    + intros [H _]. exact H.
Qed.

(** C5 (amended).  In [category_graph] the chart of a column is the pie
    chart exactly when the column has at most two distinct values, and
    the bar chart exactly when it has three or more, where a missing
    value counts as one distinct value, as [unique()] has it: the number
    compared with two is the number of distinct values that are not
    missing, plus one if a cell of the column is missing.  The body of
    the loop is then the pie chart, respectively the bar chart, of the
    value counts of the column, which leave the missing value out. *)
Theorem category_graph_chart_choice (data : DataFrame) (cfg : PlotCfg) (axs : axes)
    (nrows idx : nat) (column : string) (cells : list cell) (ax : axis) :
  getitem data column = Ok cells ->
  select_axis axs nrows idx = Ok ax ->
  let counts := value_counts cells in
  (chart_kind_of cells = PieChart <-> (distinct cells <= 2)%nat) /\
  (chart_kind_of cells = BarChart <-> (3 <= distinct cells)%nat) /\
  ((distinct cells <= 2)%nat ->
   category_chart data cfg axs nrows idx column = pie_chart cfg ax column counts) /\
  ((3 <= distinct cells)%nat ->
   category_chart data cfg axs nrows idx column =
   bar_chart ax column counts (percentages counts (len data) (percent_decimals cfg))) /\
  distinct cells =
    (distinct (dropna cells) + if bool_decide (NaN ∈ cells) then 1 else 0)%nat.
Proof.
  intros Hget Hax counts.
  split; [apply chart_kind_pie|]. split; [apply chart_kind_bar|].
  unfold category_chart.
  rewrite Hax, Hget, !bind_lift_ok. fold counts.
  split; [|split]; [intros H | intros H | apply distinct_missing].
  - apply chart_kind_pie in H. rewrite H. reflexivity.
  - apply chart_kind_bar in H. rewrite H. reflexivity.
Qed.

(* ===================================================================== *)
(** ** The grid of category_graph                                         *)
(* ===================================================================== *)

Lemma in_calls_bind {A B} (m : Plot A) (k : A -> Plot B) c :
  In c (calls (bind m k)) ->
  In c (calls m) \/ exists a, outcome m = Ok a /\ In c (calls (k a)).
Proof.
  rewrite calls_bind. intros H. apply in_app_or in H as [H|H]; [left; exact H|].
  destruct (outcome m) as [a|e]; [|destruct H]. right. exists a. auto.
Qed.

Lemma bind_ok_inv {A B} (m : Plot A) (k : A -> Plot B) b :
  outcome (bind m k) = Ok b ->
  exists a, outcome m = Ok a /\ outcome (k a) = Ok b /\
            calls (bind m k) = calls m ++ calls (k a).
Proof.
  rewrite outcome_bind, calls_bind. destruct (outcome m) as [a|e]; [|discriminate].
  intros H. exists a. auto.
Qed.

Lemma calls_check_precision d : calls (check_precision d) = [].
Proof. unfold check_precision. destruct (d <? 0)%Z; reflexivity. Qed.






Lemma category_chart_no_axis data cfg axs nrows idx column e :
  select_axis axs nrows idx = Raise e ->
  calls (category_chart data cfg axs nrows idx column) = [].
Proof. intros Hax. unfold category_chart. rewrite Hax. reflexivity. Qed.






Section Grid.
Variable n : nat.
Let nrows := ((n + 1) / 2)%nat.






End Grid.


Lemma subplots_no_row figsize : subplots 0 figsize = ([], Raise ValueError).
Proof. reflexivity. Qed.



Lemma nth_error_lt {A} (l : list A) i x : nth_error l i = Some x -> (i < length l)%nat.
Proof. intros H. apply nth_error_Some. rewrite H. discriminate. Qed.

(** The plan of the scenario has two values: a pie chart. *)
Lemma category_graph_chart_choice_scenario :
  category_chart scenario default_cfg (grid_axes 1) 1 0 "plan" =
  pie_chart default_cfg (0, 0)%nat "plan" [(Str "B", 3%nat); (Str "A", 2%nat)].
Proof.
  refine (proj1 (proj2 (proj2
    (category_graph_chart_choice scenario default_cfg (grid_axes 1) 1 0 "plan"
       (column_at 1 scenario) (0, 0)%nat eq_refl eq_refl))) _).
  rewrite <- length_unique. vm_compute. lia.
Defined.

(** Two plans make a pie, three make bars, and so does a column of two
    plans and a missing value. *)
Example chart_kinds :
  chart_kind_of (column_at 1 scenario) = PieChart /\
  chart_kind_of (column_at 1 uneven) = BarChart /\
  chart_kind_of [Str "A"] = PieChart /\
  chart_kind_of [Str "A"; NaN; Str "B"] = BarChart.
Proof. repeat split; reflexivity. Qed.

(** Three charts on a grid of two rows: cells (0,0), (0,1), (1,0), and the
    cell (1,1) switched off. *)
Example category_graph_three_charts :
  category_graph scenario ["plan"; "target"; "plan"] default_cfg =
  ([Subplots 2 2 (12%Q, of_nat 8);
    AxPie (0, 0)%nat [3; 2]%nat [Str "B"; Str "A"] 1;
    AxSetTitle (0, 0)%nat (TitleRatio "plan");
    AxPie (0, 1)%nat [3; 2]%nat [Int 0; Int 1] 1;
    AxSetTitle (0, 1)%nat (TitleRatio "target");
    AxPie (1, 0)%nat [3; 2]%nat [Str "B"; Str "A"] 1;
    AxSetTitle (1, 0)%nat (TitleRatio "plan");
    AxAxisOff (1, 1)%nat; PltTightLayout; PltShow], Ok tt).
Proof. reflexivity. Qed.

(** C5, the claim as stated fails: the plan of [with_missing] has the
    two distinct values A and B and a missing cell; [unique()] lists
    three entries, so the column is drawn as a bar chart, with the two
    bars of its value counts. *)
Lemma two_values_and_a_missing_cell_get_bars :
  let cells := column_at 1 with_missing in
  getitem with_missing "plan" = Ok cells /\
  cells = [Str "A"; NaN; Str "B"] /\
  distinct (dropna cells) = 2%nat /\
  unique cells = [Str "A"; NaN; Str "B"] /\
  chart_kind_of cells = BarChart /\
  category_chart with_missing default_cfg (grid_axes 1) 1 0 "plan" =
    bar_chart (0, 0)%nat "plan" [(Str "A", 1%nat); (Str "B", 1%nat)]
      (percentages [(Str "A", 1%nat); (Str "B", 1%nat)] 3 1).
Proof.
  intros cells. split; [reflexivity|]. split; [reflexivity|].
  split; [rewrite <- length_unique; reflexivity|].
  repeat split; reflexivity.
Qed.


(* ===================================================================== *)
(** ** value_counts                                                       *)
(* ===================================================================== *)

Lemma insert_desc_perm e l : Permutation (insert_desc e l) (e :: l).
Proof.
  induction l as [|y l IH]; simpl; [reflexivity|].
  destruct (snd y <=? snd e)%nat; [reflexivity|].
  rewrite IH. apply perm_swap.
Qed.

Lemma sort_desc_perm l : Permutation (sort_desc l) l.
Proof.
  induction l as [|e l IH]; simpl; [reflexivity|].
  rewrite insert_desc_perm, IH. reflexivity.
Qed.

Lemma in_dropna c cells : In c (dropna cells) <-> In c cells /\ c <> NaN.
Proof.
  unfold dropna. rewrite filter_In. split; intros [H1 H2]; split; auto.
  - intros ->. discriminate.
  - destruct c; [contradiction | reflexivity | reflexivity].
Qed.

(** An entry of [value_counts]: a value that occurs, with its number of
    occurrences. *)
Lemma in_value_counts cells v c :
  In (v, c) (value_counts cells) <->
  In v cells /\ v <> NaN /\ c = occurrences v cells.
Proof.
  unfold value_counts.
  assert (forall e l, In e (sort_desc l) <-> In e l) as Hsort.
  { intros e l. rewrite <- !list_elem_of_In, (sort_desc_perm l). reflexivity. }
  rewrite Hsort, in_map_iff. split.
  - intros (x & E & Hx). injection E as -> <-.
    apply list_elem_of_In, elem_of_unique, list_elem_of_In, in_dropna in Hx as [H1 H2].
    repeat split; assumption.
  - intros (H1 & H2 & ->). exists v. split; [reflexivity|].
    apply list_elem_of_In, elem_of_unique, list_elem_of_In, in_dropna. auto.
Qed.

Lemma index_value_counts_perm cells :
  Permutation (index (value_counts cells)) (unique (dropna cells)).
Proof.
  unfold value_counts, index. rewrite (sort_desc_perm _), map_map. simpl.
  rewrite map_id. reflexivity.
Qed.

Lemma NoDup_index_value_counts cells : NoDup (index (value_counts cells)).
Proof. rewrite index_value_counts_perm. apply NoDup_unique. Qed.


Lemma occurrences_pos v cells : In v cells -> (0 < occurrences v cells)%nat.
Proof.
  unfold occurrences. induction cells as [|c cells IH]; [intros []|].
  simpl. intros [->|H].
  - rewrite bool_decide_eq_true_2 by reflexivity. simpl. lia.
  - destruct (bool_decide (c = v)); simpl; [lia | auto].
Qed.

Lemma occurrences_le v cells : (occurrences v cells <= length cells)%nat.
Proof. unfold occurrences. apply filter_length_le. Qed.

(** A count is positive and at most the number of rows: the total that
    divides it is positive. *)
Lemma value_counts_bounds cells v c :
  In (v, c) (value_counts cells) -> (0 < c <= length cells)%nat.
Proof.
  rewrite in_value_counts. intros (H1 & _ & ->).
  split; [apply occurrences_pos, H1 | apply occurrences_le].
Qed.

Lemma value_counts_nil : value_counts [] = [].
Proof. reflexivity. Qed.

Lemma sum_nat_perm l1 l2 : Permutation l1 l2 -> sum_nat l1 = sum_nat l2.
Proof. induction 1; simpl; lia. Qed.

Lemma sum_indicator (x : cell) u :
  NoDup u ->
  sum_nat (map (fun v => if bool_decide (x = v) then 1 else 0)%nat u) =
  if bool_decide (x ∈ u) then 1%nat else 0%nat.
Proof.
  induction 1 as [|v u Hv Hu IH]; simpl; [reflexivity|].
  rewrite IH. destruct (decide (x = v)) as [->|Hne].
  - rewrite bool_decide_eq_true_2 by reflexivity.
    rewrite (bool_decide_eq_false_2 (v ∈ u)) by exact Hv.
    rewrite bool_decide_eq_true_2 by (left). reflexivity.
  - rewrite (bool_decide_eq_false_2 (x = v)) by exact Hne. simpl.
    destruct (decide (x ∈ u)) as [Hin|Hin].
    + rewrite !bool_decide_eq_true_2; [reflexivity | right; exact Hin | exact Hin].
    + rewrite !bool_decide_eq_false_2; [reflexivity | | exact Hin].
      intros H. apply elem_of_cons in H as [H|H]; contradiction.
Qed.

Lemma sum_occurrences u cells :
  NoDup u ->
  sum_nat (map (fun v => occurrences v cells) u) =
  length (List.filter (fun c => bool_decide (c ∈ u)) cells).
Proof.
  intros Hu. induction cells as [|c cells IH]; simpl.
  - induction u; simpl; [reflexivity|]. inversion Hu; subst. auto.
  - assert (forall v, occurrences v (c :: cells) =
              ((if bool_decide (c = v) then 1 else 0) + occurrences v cells)%nat) as E.
    { intros v. unfold occurrences. simpl. destruct (bool_decide (c = v)); reflexivity. }
    rewrite (map_ext _ _ E).
    assert (forall (f g : cell -> nat) l,
              sum_nat (map (fun v => f v + g v)%nat l) =
              (sum_nat (map f l) + sum_nat (map g l))%nat) as Hadd.
    { intros f g l. induction l; simpl; lia. }
    rewrite Hadd, IH, (sum_indicator c u Hu).
    destruct (bool_decide (c ∈ u)); reflexivity.
Qed.

(** Without missing values, the counts add up to the number of rows. *)
Lemma sum_value_counts cells :
  sum_nat (values (value_counts cells)) = length (dropna cells).
Proof.
  unfold value_counts, values.
  rewrite (sum_nat_perm _ _ (Permutation_map snd (sort_desc_perm _))), map_map. simpl.
  rewrite sum_occurrences by apply NoDup_unique.
  f_equal. unfold dropna at 2. apply filter_ext_in. intros c Hc.
  destruct (decide (c = NaN)) as [->|Hne].
  - apply bool_decide_eq_false_2. rewrite elem_of_unique, list_elem_of_In, in_dropna.
    intros [_ H]. apply H. reflexivity.
  - transitivity true; [|destruct c; [contradiction | reflexivity | reflexivity]].
    apply bool_decide_eq_true_2. rewrite elem_of_unique, list_elem_of_In, in_dropna. auto.
Qed.

(* ===================================================================== *)
(** ** Doubles, rounding and percentages                                *)
(* ===================================================================== *)

Section Doubles.
Local Open Scope Q_scope.

Lemma two_to_pos e : 0 < two_to e.
Proof. unfold two_to. apply Qpower_0_lt. reflexivity. Qed.

Lemma two_to_plus a b : two_to (a + b) == two_to a * two_to b.
Proof. unfold two_to. apply Qpower_plus. discriminate. Qed.

Lemma two_to_nonneg k : (0 <= k)%Z -> two_to k == inject_Z (2 ^ k).
Proof. intros H. unfold two_to. rewrite Zpower_Qpower by exact H. reflexivity. Qed.

Lemma Qabs_make x : Qabs x == inject_Z (Z.abs (Qnum x)) / inject_Z (Zpos (Qden x)).
Proof. destruct x as [n m]. unfold Qabs. cbn [Qnum Qden]. apply Qmake_Qdiv. Qed.

(** The bracket that the logarithms give: with [a] and [b] the binary
    logarithms of numerator and denominator,
    [2^(a-b-1) < |x| < 2^(a-b+1)]. *)
Lemma log2_bracket x :
  ~ x == 0 ->
  let a := Z.log2 (Z.abs (Qnum x)) in
  let b := Z.log2 (Zpos (Qden x)) in
  two_to (a - b - 1) < Qabs x /\ Qabs x < two_to (a - b + 1).
Proof.
  intros Hx a b.
  assert (0 < Z.abs (Qnum x))%Z as Hn.
  { destruct x as [n m]. cbn [Qnum]. unfold Qeq in Hx. cbn in Hx. lia. }
  assert (0 < Zpos (Qden x))%Z as Hm by lia.
  destruct (Z.log2_spec _ Hn) as [Ha1 Ha2]. destruct (Z.log2_spec _ Hm) as [Hb1 Hb2].
  fold a in Ha1, Ha2. fold b in Hb1, Hb2.
  pose proof (Z.log2_nonneg (Z.abs (Qnum x))) as Ha0. fold a in Ha0.
  pose proof (Z.log2_nonneg (Zpos (Qden x))) as Hb0. fold b in Hb0.
  set (N := Z.abs (Qnum x)) in *. set (M := Zpos (Qden x)) in *.
  assert (0 < inject_Z M) as HM by (rewrite <- (Zlt_Qlt 0); exact Hm).
  assert (two_to (a - b - 1) == inject_Z (2 ^ a) / inject_Z (2 ^ Z.succ b)) as E1.
  { replace (a - b - 1)%Z with (a + - Z.succ b)%Z by lia.
    rewrite two_to_plus. unfold two_to at 2. rewrite Qpower_opp.
    fold (two_to (Z.succ b)). rewrite !two_to_nonneg by lia. reflexivity. }
  assert (two_to (a - b + 1) == inject_Z (2 ^ Z.succ a) / inject_Z (2 ^ b)) as E2.
  { replace (a - b + 1)%Z with (Z.succ a + - b)%Z by lia.
    rewrite two_to_plus. unfold two_to at 2. rewrite Qpower_opp.
    fold (two_to b). rewrite !two_to_nonneg by lia. reflexivity. }
  assert (0 < inject_Z (2 ^ Z.succ b)) as HB1 by (rewrite <- (Zlt_Qlt 0); lia).
  assert (0 < inject_Z (2 ^ b)) as HB0 by (rewrite <- (Zlt_Qlt 0); lia).
  rewrite (Qabs_make x), E1, E2. fold N. fold M. split.
  - apply Qlt_shift_div_l; [exact HM|].
    assert (inject_Z (2 ^ a) / inject_Z (2 ^ Z.succ b) * inject_Z M ==
            (inject_Z (2 ^ a) * inject_Z M) / inject_Z (2 ^ Z.succ b)) as -> by (field; lra).
    apply Qlt_shift_div_r; [exact HB1|].
    rewrite <- !inject_Z_mult, <- Zlt_Qlt. nia.
  - apply Qlt_shift_div_r; [exact HM|].
    assert (inject_Z (2 ^ Z.succ a) / inject_Z (2 ^ b) * inject_Z M ==
            (inject_Z (2 ^ Z.succ a) * inject_Z M) / inject_Z (2 ^ b)) as -> by (field; lra).
    apply Qlt_shift_div_l; [exact HB0|].
    rewrite <- !inject_Z_mult, <- Zlt_Qlt. nia.
Qed.

(** The exponent puts the significand in the binade of 53 bits. *)
Lemma exponent_spec x :
  ~ x == 0 ->
  two_to 52 * two_to (exponent x) <= Qabs x /\
  Qabs x < two_to 53 * two_to (exponent x).
Proof.
  intros Hx. destruct (log2_bracket x Hx) as [Hlo Hhi].
  unfold exponent.
  set (e0 := (Z.log2 (Z.abs (Qnum x)) - Z.log2 (Zpos (Qden x)) - 53)%Z) in *.
  replace (Z.log2 (Z.abs (Qnum x)) - Z.log2 (Zpos (Qden x)) - 1)%Z
    with (52 + e0)%Z in Hlo by lia.
  replace (Z.log2 (Z.abs (Qnum x)) - Z.log2 (Zpos (Qden x)) + 1)%Z
    with (53 + (e0 + 1))%Z in Hhi by lia.
  rewrite two_to_plus in Hlo, Hhi.
  pose proof (two_to_pos e0) as He0.
  assert (two_to (e0 + 1) == two_to e0 * 2) as E1 by (rewrite two_to_plus; reflexivity).
  assert (two_to 53 == two_to 52 * 2) as E53 by reflexivity.
  destruct (Qle_bool (two_to 53) (Qabs x / two_to e0)) eqn:E.
  - apply Qle_bool_iff in E. split; [|exact Hhi].
    apply (Qmult_le_r _ _ (two_to e0) He0) in E.
    assert (Qabs x / two_to e0 * two_to e0 == Qabs x) as E' by (field; lra).
    rewrite E' in E. rewrite E1. rewrite E53 in E. lra.
  - split; [lra|].
    assert (~ two_to 53 <= Qabs x / two_to e0) as E'.
    { intros H. apply Qle_bool_iff in H. congruence. }
    apply Qnot_le_lt in E'.
    apply (Qmult_lt_r _ _ (two_to e0) He0) in E'.
    assert (Qabs x / two_to e0 * two_to e0 == Qabs x) as E'' by (field; lra).
    rewrite E'' in E'. exact E'.
Qed.

Lemma rint_close x : (Qabs (inject_Z (rint x) - x) <= 1 # 2)%Q.
Proof.
  unfold rint.
  pose proof (Qfloor_le x) as Hlo. pose proof (Qlt_floor x) as Hhi.
  rewrite inject_Z_plus in Hhi. change (inject_Z 1) with 1%Q in Hhi.
  apply Qabs_Qle_condition.
  destruct (Qcompare_spec (x - inject_Z (Qfloor x)) (1 # 2)) as [E|E|E].
  - destruct (Z.even (Qfloor x)).
    + split; lra.
    + rewrite inject_Z_plus. change (inject_Z 1) with 1%Q. split; lra.
  - split; lra.
  - rewrite inject_Z_plus. change (inject_Z 1) with 1%Q. split; lra.
Qed.

(** Rounding to a double moves a value by at most the unit roundoff,
    relative to the value. *)
Lemma fl_error x : Qabs (fl x - x) <= Qabs x * unit_roundoff.
Proof.
  unfold fl. destruct (Qeq_bool x 0) eqn:E0.
  - apply Qeq_bool_iff in E0. rewrite E0. vm_compute. discriminate.
  - assert (~ x == 0) as Hx.
    { intros H. apply Qeq_bool_iff in H. congruence. }
    destruct (exponent_spec x Hx) as [Hlo _].
    set (e := exponent x) in *. pose proof (two_to_pos e) as He.
    rewrite Qred_correct.
    pose proof (rint_close (x / two_to e)) as Hr.
    set (r := inject_Z (rint (x / two_to e))) in *.
    assert (r * two_to e - x == (r - x / two_to e) * two_to e) as -> by (field; lra).
    rewrite Qabs_Qmult, (Qabs_pos (two_to e)) by lra.
    apply (Qmult_le_r _ _ (two_to e) He) in Hr.
    assert (two_to 52 == 4503599627370496) as E52 by reflexivity.
    rewrite E52 in Hlo. unfold unit_roundoff.
    change (1 # 2 ^ 53) with (1 # 9007199254740992).
    set (a := Qabs x) in *. set (t := two_to e) in *.
    set (b := Qabs (r - x / t) * t) in *. lra.
Qed.

Lemma fl_bounds x :
  0 <= x -> x * (1 - unit_roundoff) <= fl x /\ fl x <= x * (1 + unit_roundoff).
Proof.
  intros Hx. pose proof (fl_error x) as H. rewrite (Qabs_pos x Hx) in H.
  apply Qabs_Qle_condition in H as [H1 H2]. split; lra.
Qed.

Lemma u_value : unit_roundoff == 1 # 9007199254740992.
Proof. reflexivity. Qed.

(** The quotient of two rounded values. *)
Lemma quotient_bounds c t C T :
  0 <= c -> 0 < t ->
  c * (1 - unit_roundoff) <= C <= c * (1 + unit_roundoff) ->
  t * (1 - unit_roundoff) <= T <= t * (1 + unit_roundoff) ->
  c / t * (1 - 3 * unit_roundoff) <= C / T /\ C / T <= c / t * (1 + 3 * unit_roundoff).
Proof.
  intros Hc Ht [HC1 HC2] [HT1 HT2]. rewrite u_value in *.
  assert (0 < T) as HT by nra.
  split.
  - apply Qle_shift_div_l; [exact HT|].
    assert (c / t * (1 - 3 * (1 # 9007199254740992)) * T ==
            (c * (1 - 3 * (1 # 9007199254740992)) * T) / t) as -> by (field; lra).
    apply Qle_shift_div_r; [exact Ht|]. nra.
  - apply Qle_shift_div_r; [exact HT|].
    assert (c / t * (1 + 3 * (1 # 9007199254740992)) * T ==
            (c * (1 + 3 * (1 # 9007199254740992)) * T) / t) as -> by (field; lra).
    apply Qle_shift_div_l; [exact Ht|]. nra.
Qed.

Lemma of_nat_nonneg n : 0 <= of_nat n.
Proof. unfold of_nat. rewrite <- (Zle_Qle 0). lia. Qed.

Lemma of_nat_le a b : (a <= b)%nat -> of_nat a <= of_nat b.
Proof. intros H. unfold of_nat. rewrite <- Zle_Qle. lia. Qed.

Lemma of_nat_pos a : (0 < a)%nat -> 0 < of_nat a.
Proof. intros H. unfold of_nat. rewrite <- (Zlt_Qlt 0). lia. Qed.

Lemma fl_nonneg x : 0 <= x -> 0 <= fl x.
Proof.
  intros Hx. destruct (fl_bounds x Hx) as [H _]. rewrite u_value in H. nra.
Qed.

(** The share computed in doubles is the exact share up to six unit
    roundoffs. *)
Lemma share_close count total :
  (0 < total)%nat -> (count <= total)%nat ->
  let s := exact_share count total in
  0 <= s <= 100 /\
  s * (1 - 6 * unit_roundoff) <= share count total <= s * (1 + 6 * unit_roundoff).
Proof.
  intros Ht Hc s. subst s. unfold exact_share, share, fmul, fdiv, to_double.
  pose proof (of_nat_nonneg count) as Hc0. pose proof (of_nat_pos total Ht) as Ht0.
  pose proof (of_nat_le _ _ Hc) as Hct.
  set (c := of_nat count) in *. set (t := of_nat total) in *.
  pose proof (fl_bounds c Hc0) as HC. pose proof (fl_bounds t ltac:(lra)) as HT.
  destruct (quotient_bounds c t (fl c) (fl t) Hc0 Ht0 HC HT) as [Hq1 Hq2].
  assert (0 <= c / t <= 1) as [Hr0 Hr1].
  { split; [apply Qle_shift_div_l; lra | apply Qle_shift_div_r; lra]. }
  set (r := c / t) in *. set (q0 := fl c / fl t) in *.
  rewrite u_value in *.
  assert (0 <= q0) as Hq0 by nra.
  destruct (fl_bounds q0 Hq0) as [Hf1 Hf2]. rewrite u_value in *.
  set (q := fl q0) in *.
  assert (0 <= q * 100) as Hq100 by nra.
  destruct (fl_bounds (q * 100) Hq100) as [Hs1 Hs2]. rewrite u_value in *.
  set (sh := fl (q * 100)) in *.
  split; [split; nra|]. split; nra.
Qed.

Lemma rint_nonneg x : 0 <= x -> (0 <= rint x)%Z.
Proof.
  intros Hx. assert (0 <= Qfloor x)%Z as Hf.
  { apply Qfloor_resp_le in Hx. exact Hx. }
  unfold rint. destruct (x - inject_Z (Qfloor x) ?= 1 # 2); [|lia|lia].
  destruct (Z.even (Qfloor x)); lia.
Qed.

(** Up to [10^22] the powers of ten are doubles, and numpy's table and
    loop give them exactly. *)
Lemma power_of_ten_exact n : (n <= 22)%nat -> power_of_ten n = inject_Z (10 ^ Z.of_nat n).
Proof.
  intros H.
  do 23 (destruct n as [|n]; [vm_compute; reflexivity|]). lia.
Qed.

Lemma pow10_nat n : pow10 (Z.of_nat n) == inject_Z (10 ^ Z.of_nat n).
Proof.
  unfold pow10. rewrite Zpower_Qpower by lia. reflexivity.
Qed.

(** One percentage: the share of [count] in [total], computed and
    rounded in doubles, is within half a unit of the last kept decimal,
    and the slack of the arithmetic, of the exact share. *)
Lemma np_round_share_close count total d :
  (0 < total)%nat -> (count <= total)%nat -> (0 <= d <= 22)%Z ->
  Qabs (np_round d (share count total) - exact_share count total)
  <= half_unit d + float_slack.
Proof.
  intros Ht Hc Hd.
  destruct (share_close count total Ht Hc) as [[Hs0 Hs100] [Hsh1 Hsh2]].
  set (s := exact_share count total) in *. set (sh := share count total) in *.
  unfold np_round. destruct (Z.leb_spec 0 d) as [_|?]; [|lia].
  rewrite power_of_ten_exact by lia. unfold half_unit.
  assert (pow10 d == inject_Z (10 ^ Z.of_nat (Z.abs_nat d))) as EP.
  { rewrite <- pow10_nat. rewrite Zabs2Nat.id_abs, Z.abs_eq by lia. reflexivity. }
  rewrite EP.
  assert (1 <= inject_Z (10 ^ Z.of_nat (Z.abs_nat d))) as HP.
  { rewrite <- (Zle_Qle 1).
    pose proof (Z.pow_pos_nonneg 10 (Z.of_nat (Z.abs_nat d))). lia. }
  set (P := inject_Z (10 ^ Z.of_nat (Z.abs_nat d))) in *.
  unfold fmul, fdiv. rewrite u_value in *.
  assert (0 <= sh) as Hsh0 by nra.
  assert (0 <= sh * P) as HshP by nra.
  destruct (fl_bounds (sh * P) HshP) as [Ha1 Ha2]. rewrite u_value in *.
  pose proof (fl_nonneg (sh * P) HshP) as Ha0.
  set (a := fl (sh * P)) in *.
  pose proof (rint_close a) as Hk. pose proof (rint_nonneg a Ha0) as Hk0.
  rewrite Zle_Qle in Hk0. change (inject_Z 0) with 0 in Hk0.
  set (K := inject_Z (rint a)) in *.
  apply Qabs_Qle_condition in Hk as [Hk1 Hk2].
  assert (0 < / P) as HiP by (apply Qinv_lt_0_compat; lra).
  assert (/ P <= 1) as HiP1.
  { apply (Qmult_le_l _ _ P); [lra|]. rewrite Qmult_inv_r by lra. lra. }
  assert (P * / P == 1) as EiP by (apply Qmult_inv_r; lra).
  unfold Qdiv. set (i := / P) in *.
  assert (0 <= K * i) as HKi by nra.
  destruct (fl_bounds (K * i) HKi) as [Hr1 Hr2]. rewrite u_value in *.
  set (res := fl (K * i)) in *.
  (* a / P against the computed share, K / P against a / P *)
  assert (sh * (1 - (1 # 9007199254740992)) <= a * i) as HA1.
  { assert (sh * (1 - (1 # 9007199254740992)) == sh * P * (1 - (1 # 9007199254740992)) * i)
      as -> by (transitivity (sh * (1 - (1 # 9007199254740992)) * (P * i));
                [rewrite EiP; ring | ring]).
    apply Qmult_le_compat_r; lra. }
  assert (a * i <= sh * (1 + (1 # 9007199254740992))) as HA2.
  { assert (sh * (1 + (1 # 9007199254740992)) == sh * P * (1 + (1 # 9007199254740992)) * i)
      as -> by (transitivity (sh * (1 + (1 # 9007199254740992)) * (P * i));
                [rewrite EiP; ring | ring]).
    apply Qmult_le_compat_r; lra. }
  assert (a * i - (1 # 2) * i <= K * i) as HK1 by nra.
  assert (K * i <= a * i + (1 # 2) * i) as HK2 by nra.
  set (A := a * i) in *. set (Ki := K * i) in *. set (h := (1 # 2) * i) in *.
  assert (0 < h <= 1 # 2) as [Hh0 Hh1] by (unfold h; split; lra).
  unfold float_slack. change (1 # 10 ^ 12) with (1 # 1000000000000).
  apply Qabs_Qle_condition. split; nra.
Qed.

Lemma pow10_pos d : 0 < pow10 d.
Proof. unfold pow10. apply Qpower_0_lt. reflexivity. Qed.

(** The percentages of a series against the exact shares. *)
Lemma sum_percentages_close counts total d :
  (0 < total)%nat -> (forall e, In e counts -> (snd e <= total)%nat) ->
  (0 <= d <= 22)%Z ->
  Qabs (sum_Q (values (percentages counts total d)) -
        sum_Q (map (fun e => exact_share (snd e) total) counts))
  <= of_nat (length counts) * (half_unit d + float_slack).
Proof.
  intros Ht Hle Hd. induction counts as [|e counts IH].
  - cbn [percentages values map sum_Q fold_right length].
    change (of_nat 0) with 0. apply Qabs_Qle_condition. split; lra.
  - cbn [percentages values map sum_Q fold_right snd length].
    fold (percentages counts total d). fold (values (percentages counts total d)).
    fold (sum_Q (values (percentages counts total d))).
    fold (sum_Q (map (fun e => exact_share (snd e) total) counts)).
    pose proof (np_round_share_close (snd e) total d Ht
                  (Hle e (or_introl eq_refl)) Hd) as Hr.
    apply Qabs_Qle_condition in Hr as [Hr1 Hr2].
    assert (forall e', In e' counts -> (snd e' <= total)%nat) as Hle'
      by (intros e' He'; apply Hle; right; exact He').
    apply IH in Hle'. apply Qabs_Qle_condition in Hle' as [IH1 IH2].
    assert (of_nat (S (length counts)) == 1 + of_nat (length counts)) as E.
    { unfold of_nat. rewrite Nat2Z.inj_succ, <- Z.add_1_l, inject_Z_plus. reflexivity. }
    apply Qabs_Qle_condition. rewrite E. split; lra.
Qed.

Lemma sum_exact_percentages counts total :
  sum_Q (map (fun e => exact_share (snd e) total) counts) ==
  of_nat (sum_nat (values counts)) / of_nat total * 100.
Proof.
  induction counts as [|e counts IH]; simpl.
  - unfold of_nat. simpl. unfold Qdiv. ring.
  - rewrite IH. unfold exact_share, of_nat. rewrite Nat2Z.inj_add, inject_Z_plus.
    unfold Qdiv. ring.
Qed.

(** The arithmetic of doubles used here agrees with the IEEE 754
    specification of the Standard Library on the shares of all counts
    in totals up to 40, on their roundings and on the limits and label
    heights of bar charts. *)
Lemma doubles_agree : doubles_agree_up_to 40 = true.
Proof. vm_compute. reflexivity. Qed.

(** The share of 23 rows in 80 is a little less than 28.75 and rounds to
    28.7, in both models. *)
Lemma share_23_of_80_binary64 :
  binary64_to_Q (binary64_round 1 (binary64_share 23 80)) = fl (287 # 10).
Proof. vm_compute. reflexivity. Qed.

Lemma share_23_of_80 :
  share 23 80 < 2875 # 100 /\ np_round 1 (share 23 80) = fl (287 # 10).
Proof. split; vm_compute; reflexivity. Qed.

End Doubles.

Lemma getitem_length cohort column cells :
  getitem cohort column = Ok cells -> length cells = len cohort.
Proof.
  unfold getitem. destruct (index_of column (columns cohort)); [|discriminate].
  intros H. injection H as <-. unfold column_at, len. apply length_map.
Qed.

Lemma dropna_all cells : ~ In NaN cells -> dropna cells = cells.
Proof.
  induction cells as [|c cells IH]; [reflexivity|].
  intros H. unfold dropna. simpl. destruct c; simpl.
  - exfalso. apply H. left. reflexivity.
  - f_equal. apply IH. intros Hin. apply H. right. exact Hin.
  - f_equal. apply IH. intros Hin. apply H. right. exact Hin.
Qed.

(** The percentages of a cohort without missing values in the column:
    they add up to 100 within, per category, half a unit of the last
    decimal kept and the slack of the arithmetic in doubles. *)
Lemma percentages_sum cohort column cells d :
  getitem cohort column = Ok cells -> (0 < len cohort)%nat -> ~ In NaN cells ->
  (0 <= d <= 22)%Z ->
  let pcts := percentages (value_counts cells) (len cohort) d in
  (Qabs (sum_Q (values pcts) - 100)
   <= of_nat (length pcts) * (half_unit d + float_slack))%Q.
Proof.
  intros Hget Hpos Hnan Hd pcts.
  assert (forall e, In e (value_counts cells) -> (snd e <= len cohort)%nat) as Hle.
  { intros [v c] He. apply value_counts_bounds in He.
    rewrite (getitem_length _ _ _ Hget) in He. cbn [snd]. lia. }
  pose proof (sum_percentages_close (value_counts cells) (len cohort) d Hpos Hle Hd) as H.
  rewrite sum_exact_percentages, sum_value_counts, (dropna_all cells Hnan),
    (getitem_length _ _ _ Hget) in H.
  assert (of_nat (len cohort) / of_nat (len cohort) * 100 == 100)%Q as E.
  { pose proof (of_nat_pos (len cohort) Hpos). field. lra. }
  rewrite E in H. subst pcts. unfold percentages at 2. rewrite length_map. exact H.
Qed.

(* ===================================================================== *)
(** ** The cohorts of category_graph_compare                              *)
(* ===================================================================== *)

Lemma filter_split {A} (f : A -> bool) l :
  Permutation l (List.filter f l ++ List.filter (fun x => negb (f x)) l).
Proof.
  induction l as [|x l IH]; simpl; [reflexivity|].
  destruct (f x); simpl.
  - constructor. exact IH.
  - rewrite <- Permutation_middle. constructor. exact IH.
Qed.

Lemma getitem_at data column j :
  index_of column (columns data) = Some j -> getitem data column = Ok (column_at j data).
Proof. unfold getitem. intros ->. reflexivity. Qed.

Lemma in_percentages counts total d v p :
  In (v, p) (percentages counts total d) <->
  exists c, In (v, c) counts /\ p = np_round d (share c total).
Proof.
  unfold percentages. rewrite in_map_iff. split.
  - intros ([v' c] & E & H). simpl in E. injection E as -> <-. eauto.
  - intros (c & H & ->). exists (v, c). auto.
Qed.

(** The percentages of a column of a cohort: one entry per value that
    occurs, its count over the number of rows of the cohort. *)
Lemma in_cohort_percentages cohort j d v p :
  In (v, p) (percentages (value_counts (column_at j cohort)) (len cohort) d) <->
  In v (column_at j cohort) /\ v <> NaN /\
  p = np_round d (share (occurrences v (column_at j cohort)) (len cohort)).
Proof.
  rewrite in_percentages. split.
  - intros (c & H & ->). apply in_value_counts in H as (H1 & H2 & ->). auto.
  - intros (H1 & H2 & ->). eexists. split; [|reflexivity].
    apply in_value_counts. auto.
Qed.

Lemma compare_column_eq cfg churned retained column cc rc :
  getitem churned column = Ok cc -> getitem retained column = Ok rc ->
  compare_column cfg churned retained column =
  compare_chart cfg column
    (value_counts cc) (percentages (value_counts cc) (len churned) (percent_decimals cfg))
    (value_counts rc) (percentages (value_counts rc) (len retained) (percent_decimals cfg)).
Proof.
  intros Hc Hr. unfold compare_column. rewrite Hc, bind_lift_ok, Hr, bind_lift_ok.
  reflexivity.
Qed.

(** C2 (amended).  For every data set that has the target column, its
    label being a Python identifier (the label is pasted into the
    expression that [query] parses), [category_graph_compare] splits the
    rows into two cohorts, the rows whose target equals the churn value
    and the other rows, and for each column computes the percentages of
    each cohort over that cohort's own number of rows, with one entry per
    value that occurs in the cohort: the count divided by the number of
    rows of the cohort, times 100, in doubles, rounded as numpy rounds to
    the precision, which is taken between -22 and 22.  In the scenario
    (target [1,1,0,0,0], plan [A,A,B,B,B], default configuration) the
    churned percentages are A: 100 and the retained percentages are
    B: 100, without an entry for A. *)
Theorem compare_cohorts (data : DataFrame) (cfg : PlotCfg) (i : nat) :
  is_identifier (target_col cfg) = true ->
  index_of (target_col cfg) (columns data) = Some i ->
  (-22 <= percent_decimals cfg <= 22)%Z ->
  (exists churned retained,
     query_eq data (target_col cfg) (churn_value cfg) = Ok churned /\
     query_ne data (target_col cfg) (churn_value cfg) = Ok retained /\
     (* two cohorts, by the test of the target against the churn value *)
     rows churned = List.filter (is_churned (churn_value cfg) i) (rows data) /\
     rows retained =
       List.filter (fun r => negb (is_churned (churn_value cfg) i r)) (rows data) /\
     Permutation (rows data) (rows churned ++ rows retained) /\
     (forall cat_columns,
        category_graph_compare data cat_columns cfg =
        for_each cat_columns (compare_column cfg churned retained)) /\
     (* per column: each cohort's percentages over its own number of rows *)
     (forall column j, index_of column (columns data) = Some j ->
        let d := percent_decimals cfg in
        let cp := percentages (value_counts (column_at j churned)) (len churned) d in
        let rp := percentages (value_counts (column_at j retained)) (len retained) d in
        compare_column cfg churned retained column =
          compare_chart cfg column (value_counts (column_at j churned)) cp
            (value_counts (column_at j retained)) rp /\
        (forall v p, In (v, p) cp <->
           In v (column_at j churned) /\ v <> NaN /\
           p = np_round d (share (occurrences v (column_at j churned)) (len churned))) /\
        (forall v p, In (v, p) rp <->
           In v (column_at j retained) /\ v <> NaN /\
           p = np_round d (share (occurrences v (column_at j retained)) (len retained))))) /\
  (* the scenario: A is 100% of the churned, B is 100% of the retained,
     and the retained cohort has no entry for A *)
  (query_eq scenario "target" 1 = Ok scenario_churned /\
   query_ne scenario "target" 1 = Ok scenario_retained /\
   percentages (value_counts (column_at 1 scenario_churned)) (len scenario_churned) 1 =
     [(Str "A", 100%Q)] /\
   percentages (value_counts (column_at 1 scenario_retained)) (len scenario_retained) 1 =
     [(Str "B", 100%Q)] /\
   compare_column default_cfg scenario_churned scenario_retained "plan" =
     compare_chart default_cfg "plan"
       [(Str "A", 2%nat)] [(Str "A", 100%Q)] [(Str "B", 3%nat)] [(Str "B", 100%Q)]).
Proof.
  intros _ Hi _. split; [|repeat split; reflexivity].
  exists {| columns := columns data;
            rows := List.filter (fun r => is_churned (churn_value cfg) i r) (rows data) |}.
  exists {| columns := columns data;
            rows := List.filter (fun r => negb (is_churned (churn_value cfg) i r)) (rows data) |}.
  split; [unfold query_eq, query; rewrite Hi; reflexivity|].
  split; [unfold query_ne, query; rewrite Hi; reflexivity|].
  split; [reflexivity|]. split; [reflexivity|].
  split; [apply filter_split|].
  split.
  { intros cat_columns. unfold category_graph_compare, query_eq, query_ne, query.
    rewrite Hi, !bind_lift_ok. reflexivity. }
  intros column j Hj d cp rp.
  split; [|split; intros v p; apply in_cohort_percentages].
  apply compare_column_eq; apply getitem_at; exact Hj.
Qed.

(** The cohorts of the scenario. *)
Lemma compare_cohorts_scenario :
  is_identifier (target_col default_cfg) = true /\
  index_of (target_col default_cfg) (columns scenario) = Some 0%nat /\
  (-22 <= percent_decimals default_cfg <= 22)%Z /\
  exists churned retained,
    query_eq scenario "target" 1 = Ok churned /\
    query_ne scenario "target" 1 = Ok retained /\
    Permutation (rows scenario) (rows churned ++ rows retained).
Proof.
  split; [reflexivity|]. split; [reflexivity|]. split; [vm_compute; split; discriminate|].
  destruct (compare_cohorts scenario default_cfg 0%nat eq_refl eq_refl
              ltac:(vm_compute; split; discriminate))
    as [(churned & retained & H1 & H2 & _ & _ & H3 & _) _].
  exists churned, retained. auto.
Defined.

(** C2, the claim as stated fails: it lists an entry "A: 0%" for the
    retained cohort of the scenario; the series computed has the one entry
    "B: 100%", and the retained bar drawn beside the tick "A" is 100 high. *)
Lemma scenario_retained_has_no_entry_for_A :
  let retained_pct :=
    percentages (value_counts (column_at 1 scenario_retained)) (len scenario_retained) 1 in
  query_ne scenario "target" 1 = Ok scenario_retained /\
  retained_pct = [(Str "B", 100%Q)] /\
  ~ (forall e, In e scenario_retained_as_specified -> In e retained_pct) /\
  In (AxSetXTickLabels (0, 0)%nat [Str "A"])
    (calls (category_graph_compare scenario ["plan"] default_cfg)) /\
  In (AxBar (0, 0)%nat [mkBar (0 + bar_width / 2 - bar_width / 2) 100 bar_width] (Some Retained))
    (calls (category_graph_compare scenario ["plan"] default_cfg)).
Proof.
  split; [reflexivity|]. split; [reflexivity|]. split.
  - intros H. specialize (H (Str "A", 0%Q) (or_introl eq_refl)).
    vm_compute in H. destruct H as [H|[]]. discriminate.
  - split; vm_compute; tauto.
Qed.

(** C4 (amended).  Each cohort of [category_graph_compare] on its own,
    whatever the other cohort holds: if the cohort has a row and the
    column has no missing value among the rows of the cohort, then, for a
    precision between 0 and 22 decimals, the percentages of the column
    add up to 100 within, per category, half a unit of the last decimal
    kept plus [float_slack], the error of the arithmetic in doubles.
    The percentages are those the routine hands to the chart. *)
Theorem compare_percentages_sum (data : DataFrame) (cfg : PlotCfg)
    (churned retained : DataFrame) (column : string) :
  query_eq data (target_col cfg) (churn_value cfg) = Ok churned ->
  query_ne data (target_col cfg) (churn_value cfg) = Ok retained ->
  (0 <= percent_decimals cfg <= 22)%Z ->
  let d := percent_decimals cfg in
  let sums_to_100 (pcts : Series Q) :=
    (Qabs (sum_Q (values pcts) - 100)
     <= of_nat (length pcts) * (half_unit d + float_slack))%Q in
  (forall cc, getitem churned column = Ok cc ->
     (0 < len churned)%nat -> ~ In NaN cc ->
     sums_to_100 (percentages (value_counts cc) (len churned) d)) /\
  (forall rc, getitem retained column = Ok rc ->
     (0 < len retained)%nat -> ~ In NaN rc ->
     sums_to_100 (percentages (value_counts rc) (len retained) d)) /\
  (forall cc rc, getitem churned column = Ok cc -> getitem retained column = Ok rc ->
     compare_column cfg churned retained column =
     compare_chart cfg column
       (value_counts cc) (percentages (value_counts cc) (len churned) d)
       (value_counts rc) (percentages (value_counts rc) (len retained) d)).
Proof.
  intros _ _ Hd d sums_to_100. split; [|split].
  - intros cc Hc Hpos Hnan. exact (percentages_sum churned column cc d Hc Hpos Hnan Hd).
  - intros rc Hr Hpos Hnan. exact (percentages_sum retained column rc d Hr Hpos Hnan Hd).
  - intros cc rc Hc Hr. apply compare_column_eq; assumption.
Qed.

(** The churned cohort of [uneven] has the plans A, B, B: a third and two
    thirds, rounded to 33.3 and 66.7. *)
Lemma compare_percentages_sum_uneven :
  let churned := {| columns := columns uneven;
                    rows := [[Int 1; Str "A"]; [Int 1; Str "B"]; [Int 1; Str "B"]] |} in
  let cp := percentages (value_counts (column_at 1 churned)) (len churned) 1 in
  query_eq uneven "target" 1 = Ok churned /\
  (0 <= percent_decimals default_cfg <= 22)%Z /\
  cp = [(Str "B", fl (667 # 10)); (Str "A", fl (333 # 10))] /\
  (Qabs (sum_Q (values cp) - 100) <= of_nat (length cp) * (half_unit 1 + float_slack))%Q.
Proof.
  intros churned cp. split; [reflexivity|]. split; [vm_compute; split; discriminate|].
  split; [vm_compute; reflexivity|].
  refine (proj1 (compare_percentages_sum uneven default_cfg churned
                   {| columns := columns uneven;
                      rows := [[Int 0; Str "B"]; [Int 0; Str "C"]; [Int 0; Str "C"];
                               [Int 0; Str "C"]; [Int 0; Str "A"]; [Int 0; Str "A"]] |}
                   "plan" eq_refl eq_refl _) (column_at 1 churned) eq_refl _ _).
  - vm_compute. split; discriminate.
  - vm_compute. lia.
  - vm_compute. intros [H|[H|[H|[]]]]; discriminate.
Defined.

(** C4, the claim as stated fails: both cohorts of [with_missing] have a
    row, and the one percentage of the churned cohort is 50: a missing
    value is counted in the total and in no category. *)
Lemma missing_values_lower_the_sum :
  let d := percent_decimals default_cfg in
  let churned := {| columns := columns with_missing;
                    rows := [[Int 1; Str "A"]; [Int 1; NaN]] |} in
  let retained := {| columns := columns with_missing; rows := [[Int 0; Str "B"]] |} in
  let cp := percentages (value_counts (column_at 1 churned)) (len churned) d in
  query_eq with_missing "target" 1 = Ok churned /\
  query_ne with_missing "target" 1 = Ok retained /\
  (0 < len churned)%nat /\ (0 < len retained)%nat /\
  compare_column default_cfg churned retained "plan" =
    compare_chart default_cfg "plan" [(Str "A", 1%nat)] cp [(Str "B", 1%nat)] [(Str "B", 100%Q)] /\
  cp = [(Str "A", 50%Q)] /\
  ~ (Qabs (sum_Q (values cp) - 100) <= of_nat (length cp) * (half_unit d + float_slack))%Q.
Proof.
  repeat split; try reflexivity; try (vm_compute; lia).
  vm_compute. intros H. apply H. reflexivity.
Qed.

(* ===================================================================== *)
(** ** The bars of category_graph_compare                                 *)
(* ===================================================================== *)

Lemma broadcast_same {A B} (xs : list A) (ys : list B) :
  length xs = length ys -> broadcast xs ys = Ok (combine xs ys).
Proof. unfold broadcast. intros ->. rewrite Nat.eqb_refl. reflexivity. Qed.

(** Two vectors of different lengths, neither of length one, have no
    common shape. *)
Lemma broadcast_mismatch {A B} (xs : list A) (ys : list B) :
  length xs <> length ys -> length xs <> 1%nat -> length ys <> 1%nat ->
  broadcast xs ys = Raise ValueError.
Proof.
  unfold broadcast. intros Hne Hx Hy.
  destruct (Nat.eqb_spec (length xs) (length ys)) as [E|_]; [contradiction|].
  destruct xs as [|x [|x' xs]]; destruct ys as [|y [|y' ys]]; simpl in *;
    try reflexivity; congruence.
Qed.

Lemma broadcast_nil_l {A B} (ys : list B) :
  broadcast (@nil A) ys = if (length ys <=? 1)%nat then Ok [] else Raise ValueError.
Proof. destruct ys as [|y [|y' ys]]; reflexivity. Qed.

Lemma broadcast_nil_r {A B} (xs : list A) :
  broadcast xs (@nil B) = if (length xs <=? 1)%nat then Ok [] else Raise ValueError.
Proof. destruct xs as [|x [|x' xs]]; reflexivity. Qed.

Lemma length_arange n : length (arange n) = n.
Proof. unfold arange. rewrite length_map, length_seq. reflexivity. Qed.

Lemma length_values {A} (s : Series A) : length (values s) = length s.
Proof. apply length_map. Qed.

Lemma length_percentages counts total d :
  length (percentages counts total d) = length counts.
Proof. apply length_map. Qed.

Lemma calls_ax_bar_ok ax x height width label xh :
  broadcast x height = Ok xh ->
  ax_bar ax x height width label =
  ([AxBar ax (map (fun p => mkBar (fst p - width / 2) (snd p) width) xh) label],
   Ok (map (fun p => mkBar (fst p - width / 2) (snd p) width) xh)).
Proof. unfold ax_bar. intros ->. reflexivity. Qed.

Lemma ax_bar_raise ax x height width label e :
  broadcast x height = Raise e -> ax_bar ax x height width label = ([], Raise e).
Proof. unfold ax_bar. intros ->. reflexivity. Qed.

Lemma bind_pair {A B} (w : list call) (a : A) (k : A -> Plot B) :
  bind (w, Ok a) k = (w ++ calls (k a), outcome (k a)).
Proof. unfold bind. destruct (k a). reflexivity. Qed.


Lemma bind_emit {B} c (k : unit -> Plot B) :
  bind (emit c) k = (c :: calls (k tt), outcome (k tt)).
Proof. unfold emit. rewrite bind_pair. reflexivity. Qed.

(** The chart of a column for which the churned cohort has no value. *)
Lemma compare_chart_no_churned cfg column rc rp :
  let run := compare_chart cfg column [] [] rc rp in
  head (calls run) = Some (Subplots 1 1 (10%Q, 6%Q)) /\
  outcome run = if (length rp <=? 1)%nat then Ok tt else Raise ValueError.
Proof.
  unfold compare_chart. rewrite bind_emit. cbn [calls outcome fst snd head].
  split; [reflexivity|].
  cbn [length arange seq map].
  rewrite (calls_ax_bar_ok _ [] (values []) _ _ []) by reflexivity. rewrite bind_pair.
  rewrite outcome_bind.
  destruct (broadcast (@nil Q) (values rp)) as [xh|e] eqn:E.
  - erewrite calls_ax_bar_ok by exact E.
    rewrite broadcast_nil_l, length_values in E.
    destruct (length rp <=? 1)%nat; [|discriminate]. reflexivity.
  - erewrite ax_bar_raise by exact E.
    rewrite broadcast_nil_l, length_values in E.
    destruct (length rp <=? 1)%nat; [discriminate|]. injection E as <-. reflexivity.
Qed.

Lemma length_positions (f : Q -> Q) n : length (map f (arange n)) = n.
Proof. rewrite length_map. apply length_arange. Qed.

(** The chart of a column for which the retained cohort has no value. *)
Lemma compare_chart_no_retained cfg column cc cp rc :
  let run := compare_chart cfg column cc cp rc [] in
  head (calls run) = Some (Subplots 1 1 (10%Q, 6%Q)) /\
  outcome run = if (length cp <=? 1)%nat then Ok tt else Raise ValueError.
Proof.
  unfold compare_chart. rewrite bind_emit. cbn [calls outcome fst snd head].
  split; [reflexivity|].
  erewrite calls_ax_bar_ok
    by (apply broadcast_same; rewrite length_positions, length_values; reflexivity).
  rewrite bind_pair. cbn [outcome snd].
  rewrite outcome_bind.
  destruct (broadcast (map (fun x => x + bar_width / 2)%Q (arange (length cp)))
              (values (@nil (cell * Q)))) as [xh|e] eqn:E.
  - erewrite calls_ax_bar_ok by exact E.
    change (values (@nil (cell * Q))) with (@nil Q) in E.
    rewrite broadcast_nil_r, length_positions in E.
    destruct (length cp <=? 1)%nat; [|discriminate]. injection E as <-.
    cbn [outcome snd map]. rewrite combine_nil. reflexivity.
  - erewrite ax_bar_raise by exact E.
    change (values (@nil (cell * Q))) with (@nil Q) in E.
    rewrite broadcast_nil_r, length_positions in E.
    destruct (length cp <=? 1)%nat; [discriminate|]. injection E as <-. reflexivity.
Qed.

Lemma value_counts_empty cohort column cells :
  getitem cohort column = Ok cells -> len cohort = 0%nat -> value_counts cells = [].
Proof.
  intros Hget Hlen. apply getitem_length in Hget. rewrite Hlen in Hget.
  destruct cells; [reflexivity | discriminate].
Qed.

Lemma category_graph_compare_one data cfg churned retained column :
  query_eq data (target_col cfg) (churn_value cfg) = Ok churned ->
  query_ne data (target_col cfg) (churn_value cfg) = Ok retained ->
  calls (category_graph_compare data [column] cfg) =
    calls (compare_column cfg churned retained column) /\
  outcome (category_graph_compare data [column] cfg) =
    outcome (compare_column cfg churned retained column).
Proof.
  intros Hc Hr. unfold category_graph_compare. rewrite Hc, Hr, !bind_lift_ok.
  cbn [for_each].
  destruct (compare_column cfg churned retained column) as [w [[]|e]]; simpl.
  - rewrite app_nil_r. auto.
  - auto.
Qed.

(** C6 (amended).  When a cohort is empty the computation of its
    percentages does not fail: the counts of the cohort are an empty
    series, so nothing is divided by the zero total, and the percentages
    are an empty series.  The chart of the column is begun; it ends with a
    [ValueError] (the shapes of positions and heights in [ax.bar]) exactly
    when the other cohort has two or more categories, and is completed
    otherwise. *)
Theorem empty_cohort_chart (data : DataFrame) (cfg : PlotCfg)
    (churned retained : DataFrame) (column : string) (cc rc : list cell) :
  query_eq data (target_col cfg) (churn_value cfg) = Ok churned ->
  query_ne data (target_col cfg) (churn_value cfg) = Ok retained ->
  getitem churned column = Ok cc -> getitem retained column = Ok rc ->
  let d := percent_decimals cfg in
  let cp := percentages (value_counts cc) (len churned) d in
  let rp := percentages (value_counts rc) (len retained) d in
  let run := category_graph_compare data [column] cfg in
  (* a count that is divided is a count of rows of a cohort that has rows *)
  (forall v c, In (v, c) (value_counts cc) -> (0 < len churned)%nat) /\
  (forall v c, In (v, c) (value_counts rc) -> (0 < len retained)%nat) /\
  (len churned = 0%nat ->
     cp = [] /\ head (calls run) = Some (Subplots 1 1 (10%Q, 6%Q)) /\
     outcome run = if (length rp <=? 1)%nat then Ok tt else Raise ValueError) /\
  (len retained = 0%nat ->
     rp = [] /\ head (calls run) = Some (Subplots 1 1 (10%Q, 6%Q)) /\
     outcome run = if (length cp <=? 1)%nat then Ok tt else Raise ValueError).
Proof.
  intros Hqc Hqr Hc Hr d cp rp run.
  destruct (category_graph_compare_one data cfg churned retained column Hqc Hqr)
    as [Hcalls Hout].
  subst run. rewrite Hcalls, Hout, (compare_column_eq _ _ _ _ _ _ Hc Hr).
  fold d. fold cp. fold rp.
  split.
  { intros v c H. apply value_counts_bounds in H.
    rewrite (getitem_length _ _ _ Hc) in H. lia. }
  split.
  { intros v c H. apply value_counts_bounds in H.
    rewrite (getitem_length _ _ _ Hr) in H. lia. }
  split; intros Hlen.
  - assert (value_counts cc = []) as E by (eapply value_counts_empty; eassumption).
    subst cp. rewrite E. split; [reflexivity|]. apply compare_chart_no_churned.
  - assert (value_counts rc = []) as E by (eapply value_counts_empty; eassumption).
    subst rp. rewrite E. split; [reflexivity|].
    apply compare_chart_no_retained.
Qed.

(** [nobody_left] has no churned row, and one plan among the retained. *)
Lemma empty_cohort_chart_nobody_left :
  let run := category_graph_compare nobody_left ["plan"] default_cfg in
  head (calls run) = Some (Subplots 1 1 (10%Q, 6%Q)) /\ outcome run = Ok tt.
Proof.
  refine (proj2 (proj1 (proj2 (proj2
    (empty_cohort_chart nobody_left default_cfg
       {| columns := columns nobody_left; rows := [] |} nobody_left "plan" [] 
       (column_at 1 nobody_left) eq_refl eq_refl eq_refl eq_refl))) eq_refl)).
Defined.

(** C6, the claim as stated fails: with no churned row the percentages
    are computed (an empty series for the churned, A: 100 for the
    retained), the chart is drawn and the call returns. *)
Lemma empty_cohort_does_not_fail :
  let churned := {| columns := columns nobody_left; rows := [] |} in
  let run := category_graph_compare nobody_left ["plan"] default_cfg in
  query_eq nobody_left "target" 1 = Ok churned /\
  len churned = 0%nat /\
  percentages (value_counts (column_at 1 churned)) (len churned) 1 = [] /\
  percentages (value_counts (column_at 1 nobody_left)) (len nobody_left) 1 =
    [(Str "A", 100%Q)] /\
  In PltShow (calls run) /\
  outcome run = Ok tt /\
  ~ (exists e, outcome run = Raise e).
Proof.
  repeat split; try reflexivity.
  - vm_compute. tauto.
  - intros [e H]. vm_compute in H. discriminate.
Qed.



(* ===================================================================== *)
(** ** Ticks, bars and annotations of category_graph_compare              *)
(* ===================================================================== *)

Lemma nth_error_combine {A B} (l1 : list A) (l2 : list B) i :
  nth_error (combine l1 l2) i =
  match nth_error l1 i, nth_error l2 i with
  | Some a, Some b => Some (a, b)
  | _, _ => None
  end.
Proof.
  revert l2 i. induction l1 as [|a l1 IH]; intros l2 i.
  - destruct i; reflexivity.
  - destruct l2 as [|b l2].
    + destruct i; simpl; [reflexivity|]. destruct (nth_error l1 i); reflexivity.
    + destruct i; simpl; [reflexivity | apply IH].
Qed.

Lemma nth_error_arange n i : (i < n)%nat -> nth_error (arange n) i = Some (of_nat i).
Proof.
  intros H. unfold arange. rewrite nth_error_map, nth_error_seq.
  destruct (Nat.ltb_spec i n); [reflexivity | lia].
Qed.

Section CompareChart.
Variables (cfg : PlotCfg) (column : string).
Variables (cc : Series nat) (cp : Series Q) (rc : Series nat) (rp : Series Q).

Let ax : axis := (0, 0)%nat.
Let run := compare_chart cfg column cc cp rc rp.
Let churned_x := map (fun x => x - bar_width / 2)%Q (arange (length cp)).
Let retained_x := map (fun x => x + bar_width / 2)%Q (arange (length cp)).
Let mk := fun p : Q * Q => mkBar (fst p - bar_width / 2) (snd p) bar_width.
Let bars1 := map mk (combine churned_x (values cp)).

(** What follows the drawing of the bars (lines 160-181). *)
Let finish (bars2 : list bar) : Plot unit :=
  emit (AxSetYLim ax 0 105) ;;
  for_each (enumerate (combine bars1 bars2)) (label_pair cfg ax cc rc) ;;
  emit (AxSetXLabel ax LabelValue) ;;
  emit (AxSetYLabel ax LabelShare) ;;
  emit (AxSetTitle ax (TitleCompare column)) ;;
  emit (AxSetXTicks ax (arange (length cp))) ;;
  emit (AxSetXTickLabels ax (index cp)) ;;
  emit (AxLegend ax) ;;
  emit (AxGrid ax) ;;
  emit PltTightLayout ;;
  emit PltShow.

Lemma compare_chart_drawn xh :
  broadcast retained_x (values rp) = Ok xh ->
  run = (Subplots 1 1 (10%Q, 6%Q) :: AxBar ax bars1 (Some Churned) ::
         AxBar ax (map mk xh) (Some Retained) :: calls (finish (map mk xh)),
         outcome (finish (map mk xh))).
Proof.
  intros E. subst run. unfold compare_chart. rewrite bind_emit.
  cbn [calls outcome fst snd].
  erewrite calls_ax_bar_ok
    by (apply broadcast_same; rewrite length_positions, length_values; reflexivity).
  rewrite bind_pair. cbn [calls outcome fst snd app].
  fold churned_x. fold mk. fold bars1. fold retained_x.
  fold ax. rewrite (calls_ax_bar_ok ax _ _ _ _ _ E), bind_pair.
  reflexivity.
Qed.

Lemma compare_chart_refused e :
  broadcast retained_x (values rp) = Raise e ->
  run = ([Subplots 1 1 (10%Q, 6%Q); AxBar ax bars1 (Some Churned)], Raise e).
Proof.
  intros E. subst run. unfold compare_chart. rewrite bind_emit.
  cbn [calls outcome fst snd].
  erewrite calls_ax_bar_ok
    by (apply broadcast_same; rewrite length_positions, length_values; reflexivity).
  rewrite bind_pair. cbn [calls outcome fst snd app].
  fold churned_x. fold mk. fold bars1. fold retained_x.
  fold ax. rewrite (ax_bar_raise ax _ _ _ _ _ E). reflexivity.
Qed.

(** An annotation is made for a position below the number of churned
    categories, with the count found there in one of the two series. *)
Lemma finish_texts bars2 x y d h c :
  In (AxText ax x y (PctCount d h c)) (calls (finish bars2)) ->
  exists i, (i < length cp)%nat /\ (iloc cc i = Ok c \/ iloc rc i = Ok c).
Proof.
  unfold finish. intros H.
  apply in_calls_bind in H as [H | (? & _ & H)].
  { destruct H as [H|[]]. discriminate. }
  apply in_calls_bind in H as [H | (? & _ & H)].
  - apply in_calls_for_each in H as ([i [b1 b2]] & Hin & H).
    apply in_enumerate in Hin. apply nth_error_lt in Hin.
    rewrite length_combine in Hin.
    assert (i < length cp)%nat as Hi.
    { subst bars1 churned_x. rewrite length_map, length_combine, length_positions in Hin. lia. }
    exists i. split; [exact Hi|].
    unfold label_pair in H. cbn [fst snd] in H.
    apply in_calls_bind in H as [H | (? & _ & H)].
    { rewrite calls_check_precision in H. destruct H. }
    apply in_calls_bind in H as [H | (c1 & Hc1 & H)]; [destruct H|].
    apply in_calls_bind in H as [H | (? & _ & H)].
    { destruct H as [H|[]]. assert (c1 = c) as <- by congruence. left. exact Hc1. }
    apply in_calls_bind in H as [H | (? & _ & H)].
    { rewrite calls_check_precision in H. destruct H. }
    apply in_calls_bind in H as [H | (c2 & Hc2 & H)]; [destruct H|].
    destruct H as [H|[]]. assert (c2 = c) as <- by congruence. right. exact Hc2.
  - repeat (apply in_calls_bind in H as [H | (? & _ & H)];
            [destruct H as [H|[]]; discriminate |]).
    destruct H as [H|[]]. discriminate.
Qed.

Lemma finish_ticks bars2 :
  outcome (finish bars2) = Ok tt ->
  In (AxSetXTicks ax (arange (length cp))) (calls (finish bars2)) /\
  In (AxSetXTickLabels ax (index cp)) (calls (finish bars2)).
Proof.
  unfold finish. intros H.
  apply bind_ok_inv in H as (? & _ & H & ->).
  apply bind_ok_inv in H as (? & _ & H & ->).
  rewrite !calls_bind, !outcome_emit, !calls_emit.
  split; apply in_or_app; right; apply in_or_app; right; simpl; tauto.
Qed.

Lemma iloc_lt {A} (s : Series A) i : (i < length s)%nat -> exists a, iloc s i = Ok a.
Proof.
  intros H. unfold iloc. rewrite <- (length_values s) in H.
  apply nth_error_Some in H. destruct (nth_error (values s) i) as [a|]; [eauto | contradiction].
Qed.

Lemma label_pair_returns i b1 b2 :
  (0 <= percent_decimals cfg)%Z -> (i < length cc)%nat -> (i < length rc)%nat ->
  outcome (label_pair cfg ax cc rc (i, (b1, b2))) = Ok tt.
Proof.
  intros Hd Hc Hr. unfold label_pair, check_precision. cbn [fst snd].
  destruct (Z.ltb_spec (percent_decimals cfg) 0) as [H|_]; [lia|].
  destruct (iloc_lt cc i Hc) as [c1 ->]. destruct (iloc_lt rc i Hr) as [c2 ->].
  reflexivity.
Qed.

(** With a precision that is not negative and counts for every pair of
    bars, the chart is completed. *)
Lemma finish_returns bars2 :
  (0 <= percent_decimals cfg)%Z -> length cc = length cp ->
  (length bars2 <= length rc)%nat ->
  outcome (finish bars2) = Ok tt.
Proof.
  intros Hd Hcc Hb. unfold finish. rewrite bind_emit. cbn [outcome snd].
  rewrite outcome_bind.
  assert (outcome (for_each (enumerate (combine bars1 bars2)) (label_pair cfg ax cc rc))
          = Ok tt) as ->; [|reflexivity].
  apply for_each_ok. intros [i [b1 b2]] Hin.
  apply in_enumerate, nth_error_lt in Hin. rewrite length_combine in Hin.
  assert (length bars1 = length cp) as Hb1.
  { subst bars1 churned_x. rewrite length_map, length_combine, length_positions, length_values.
    lia. }
  apply label_pair_returns; [exact Hd | lia | lia].
Qed.

End CompareChart.

(** C10 (amended).  In [category_graph_compare] the tick positions and
    labels are those of the churned cohort's [value_counts] order.  When
    both cohorts have as many categories, the retained bars are drawn in
    the retained cohort's own order, so the bar beside the tick number i
    is the one of the i-th retained category, whatever the label of that
    tick; with a precision that is not negative the chart is completed.
    When the numbers of categories differ and neither is one, drawing the
    retained bars raises [ValueError]: no retained bar, tick label or
    annotation is made.  In every case an annotation is made for a
    position below the number of churned categories only. *)
Theorem compare_chart_alignment (cfg : PlotCfg) (churned retained : DataFrame)
    (column : string) (cc rc : list cell) :
  getitem churned column = Ok cc -> getitem retained column = Ok rc ->
  let d := percent_decimals cfg in
  let cp := percentages (value_counts cc) (len churned) d in
  let rp := percentages (value_counts rc) (len retained) d in
  let run := compare_column cfg churned retained column in
  let ax : axis := (0, 0)%nat in
  (* the ticks and their labels are those of the churned cohort *)
  (outcome run = Ok tt ->
     In (AxSetXTicks ax (arange (length cp))) (calls run) /\
     In (AxSetXTickLabels ax (index cp)) (calls run)) /\
  (* as many categories in both cohorts: the retained bar beside the tick
     number i is the one of the i-th retained category, whatever the
     label a of that tick *)
  (length rp = length cp ->
     exists bars, In (AxBar ax bars (Some Retained)) (calls run) /\
       forall i a b p,
         nth_error (index cp) i = Some a -> nth_error rp i = Some (b, p) ->
         exists bar, nth_error bars i = Some bar /\ get_height bar = p /\
           (get_x bar + get_width bar / 2 == of_nat i + bar_width / 2)%Q) /\
  (* other numbers of categories, neither being one: no retained bar *)
  (length rp <> length cp -> length cp <> 1%nat -> length rp <> 1%nat ->
     outcome run = Raise ValueError /\
     exists bars, calls run = [Subplots 1 1 (10%Q, 6%Q); AxBar ax bars (Some Churned)]) /\
  (* an annotation is made below the number of churned categories only *)
  (forall x y d' h c, In (AxText ax x y (PctCount d' h c)) (calls run) ->
     exists i, (i < length cp)%nat /\
       (iloc (value_counts cc) i = Ok c \/ iloc (value_counts rc) i = Ok c)) /\
  (* as many categories and a precision that is not negative: the chart
     is completed *)
  (length rp = length cp -> (0 <= d)%Z -> outcome run = Ok tt).
Proof.
  intros Hc Hr d cp rp run ax.
  subst run. rewrite (compare_column_eq _ _ _ _ _ _ Hc Hr). fold d. fold cp. fold rp.
  set (retained_x := map (fun x => x + bar_width / 2)%Q (arange (length cp))).
  destruct (broadcast retained_x (values rp)) as [xh|e] eqn:E.
  - pose proof (compare_chart_drawn cfg column (value_counts cc) cp (value_counts rc) rp
                  xh E) as Hrun.
    cbv zeta in Hrun. rewrite Hrun. cbn [calls outcome fst snd].
    split.
    { intros Hok. apply (finish_ticks cfg column) in Hok as [H1 H2].
      split; right; right; right; assumption. }
    split.
    { intros Hlen. eexists. split; [right; right; left; reflexivity|].
      intros i a b p Ha Hb.
      assert (i < length cp)%nat as Hi by (rewrite <- Hlen; eapply nth_error_lt, Hb).
      rewrite broadcast_same in E
        by (subst retained_x; rewrite length_positions, length_values; symmetry; exact Hlen).
      injection E as <-.
      rewrite nth_error_map, nth_error_combine. subst retained_x.
      rewrite nth_error_map, (nth_error_arange _ _ Hi). cbn [option_map].
      unfold values. rewrite nth_error_map, Hb. cbn [option_map snd fst].
      eexists. split; [reflexivity|]. split; [reflexivity|].
      cbn [get_x get_width fst snd]. ring. }
    split.
    { intros Hne H1 H2. exfalso.
      rewrite broadcast_mismatch in E; [discriminate | | |].
      - subst retained_x. rewrite length_positions, length_values. auto.
      - subst retained_x. rewrite length_positions. exact H1.
      - rewrite length_values. exact H2. }
    split.
    { intros x y d' h c H.
      destruct H as [H|[H|[H|H]]]; try discriminate.
      eapply (finish_texts cfg column), H. }
    intros Hlen Hd. apply (finish_returns cfg column); [exact Hd | | ].
    + subst cp. rewrite length_percentages. reflexivity.
    + rewrite broadcast_same in E
        by (subst retained_x; rewrite length_positions, length_values; symmetry; exact Hlen).
      injection E as <-. subst retained_x.
      rewrite length_map, length_combine, length_positions, length_values.
      subst rp. rewrite length_percentages. lia.
  - pose proof (compare_chart_refused cfg column (value_counts cc) cp (value_counts rc) rp
                  e E) as Hrun.
    cbv zeta in Hrun. rewrite Hrun. cbn [calls outcome fst snd].
    split; [discriminate|].
    split.
    { intros Hlen. rewrite broadcast_same in E; [discriminate|].
      subst retained_x. rewrite length_positions, length_values. symmetry. exact Hlen. }
    split.
    { intros Hne H1 H2. rewrite broadcast_mismatch in E.
      - injection E as <-. split; [reflexivity|]. eexists. reflexivity.
      - subst retained_x. rewrite length_positions, length_values. auto.
      - subst retained_x. rewrite length_positions. exact H1.
      - rewrite length_values. exact H2. }
    split; [intros x y d' h c [H|[H|[]]]; discriminate|].
    intros Hlen _. rewrite broadcast_same in E; [discriminate|].
    subst retained_x. rewrite length_positions, length_values. symmetry. exact Hlen.
Qed.

(** The ticks of [swapped] are those of its churned cohort: A, then B. *)
Lemma compare_chart_alignment_swapped :
  let churned := {| columns := columns swapped;
                    rows := [[Int 1; Str "A"]; [Int 1; Str "A"]; [Int 1; Str "B"]] |} in
  let retained := {| columns := columns swapped;
                     rows := [[Int 0; Str "B"]; [Int 0; Str "B"]; [Int 0; Str "A"]] |} in
  let run := compare_column default_cfg churned retained "plan" in
  In (AxSetXTicks (0, 0)%nat (arange 2)) (calls run) /\
  In (AxSetXTickLabels (0, 0)%nat [Str "A"; Str "B"]) (calls run).
Proof.
  intros churned retained run.
  refine (proj1 (compare_chart_alignment default_cfg churned retained "plan"
                   (column_at 1 churned) (column_at 1 retained) eq_refl eq_refl) eq_refl).
Defined.

(** In [swapped] the retained bars stand in the order B, A beside the
    ticks labelled A, B. *)
Example swapped_is_mislabelled :
  let run := category_graph_compare swapped ["plan"] default_cfg in
  outcome run = Ok tt /\
  In (AxSetXTickLabels (0, 0)%nat [Str "A"; Str "B"]) (calls run) /\
  exists x0 x1,
    In (AxBar (0, 0)%nat [mkBar x0 (fl (667 # 10)) bar_width;
                          mkBar x1 (fl (333 # 10)) bar_width]
          (Some Retained)) (calls run) /\
    percentages (value_counts [Str "B"; Str "B"; Str "A"]) 3 1 =
      [(Str "B", fl (667 # 10)); (Str "A", fl (333 # 10))].
Proof.
  split; [reflexivity|]. split; [vm_compute; tauto|].
  eexists. eexists. split; [|vm_compute; reflexivity].
  vm_compute. right. right. left. reflexivity.
Qed.

(** C10, the claim as stated fails: in [uneven] the cohorts rank their
    plans differently and the retained cohort has a plan of its own, yet
    no retained bar stands beside a wrong label and no labelling loop
    runs: the call fails before a retained bar, a tick label or an
    annotation is drawn. *)
Lemma uneven_cohorts_are_not_drawn :
  let run := category_graph_compare uneven ["plan"] default_cfg in
  index (value_counts [Str "A"; Str "B"; Str "B"]) = [Str "B"; Str "A"] /\
  index (value_counts [Str "B"; Str "C"; Str "C"; Str "C"; Str "A"; Str "A"]) =
    [Str "C"; Str "A"; Str "B"] /\
  outcome run = Raise ValueError /\
  (forall bars, ~ In (AxBar (0, 0)%nat bars (Some Retained)) (calls run)) /\
  (forall labels, ~ In (AxSetXTickLabels (0, 0)%nat labels) (calls run)) /\
  (forall x y s, ~ In (AxText (0, 0)%nat x y s) (calls run)).
Proof.
  split; [reflexivity|]. split; [reflexivity|]. split; [reflexivity|].
  repeat split; intros; vm_compute; intros [H|[H|[]]]; discriminate.
Qed.

(* ===================================================================== *)
(** ** category_graph returns                                             *)
(* ===================================================================== *)


(** [ax.pie] refuses the counts of a column without a value. *)
Lemma pie_chart_no_value cfg ax column counts :
  sum_nat (values counts) = 0%nat ->
  pie_chart cfg ax column counts = ([], Raise ValueError).
Proof.
  intros Hsum. unfold pie_chart. fold (sum_nat (values counts)). rewrite Hsum. reflexivity.
Qed.


Lemma bar_chart_returns ax column counts pcts :
  counts <> [] -> outcome (bar_chart ax column counts pcts) = Ok tt.
Proof.
  intros Hne. unfold bar_chart.
  erewrite calls_ax_bar_ok
    by (apply broadcast_same; rewrite length_arange, length_map, length_values; reflexivity).
  rewrite bind_pair. cbn [outcome snd]. rewrite !bind_emit. cbn [outcome snd].
  destruct counts as [|e counts]; [contradiction|].
  cbn [values map max_of]. rewrite bind_lift_ok, bind_emit. cbn [outcome snd].
  apply for_each_ok. intros x _. reflexivity.
Qed.

(** A column that gets a bar chart has a value to count. *)
Lemma bar_chart_has_values cells : chart_kind_of cells = BarChart -> value_counts cells <> [].
Proof.
  intros Hk Hnil. apply chart_kind_bar in Hk.
  assert (length (unique (dropna cells)) = 0%nat) as Hlen.
  { rewrite <- (Permutation_length (index_value_counts_perm cells)), Hnil. reflexivity. }
  assert (forall c, In c cells -> c = NaN) as Hall.
  { intros c Hc. destruct (decide (c = NaN)) as [E|E]; [exact E|].
    assert (c ∈ unique (dropna cells)) as Hin
      by (apply elem_of_unique, list_elem_of_In, in_dropna; auto).
    destruct (unique (dropna cells)); [inversion Hin | discriminate]. }
  rewrite <- length_unique in Hk. pose proof (NoDup_unique cells) as Hnd.
  destruct (unique cells) as [|a [|b l]] eqn:E; simpl in Hk; try lia.
  assert (a = NaN) as Ha by (apply Hall, list_elem_of_In, elem_of_unique; rewrite E; left).
  assert (b = NaN) as Hb
    by (apply Hall, list_elem_of_In, elem_of_unique; rewrite E; right; left).
  subst. apply NoDup_cons in Hnd as [Hnd _]. apply Hnd. left.
Qed.




(** X1.  The counts that [category_graph] draws for a column add up to the
    number of rows whose value is not missing; without a missing value,
    to the number of rows of the data set. *)
Theorem category_counts_sum (data : DataFrame) (column : string) (cells : list cell) :
  getitem data column = Ok cells ->
  sum_nat (values (value_counts cells)) = length (dropna cells) /\
  (length (dropna cells) <= len data)%nat /\
  (~ In NaN cells -> sum_nat (values (value_counts cells)) = len data).
Proof.
  intros Hget. pose proof (getitem_length _ _ _ Hget) as Hlen.
  split; [apply sum_value_counts|]. split.
  - rewrite <- Hlen. unfold dropna. apply filter_length_le.
  - intros Hnan. rewrite sum_value_counts, (dropna_all cells Hnan). exact Hlen.
Qed.

(** The plans of [with_missing]: two are counted, of three rows. *)
Lemma category_counts_sum_with_missing :
  sum_nat (values (value_counts (column_at 1 with_missing))) = 2%nat /\
  len with_missing = 3%nat.
Proof.
  split; [|reflexivity].
  exact (proj1 (category_counts_sum with_missing "plan" (column_at 1 with_missing) eq_refl)).
Defined.

(* ===================================================================== *)
(** ** Further properties of the column-name normalizer                   *)
(* ===================================================================== *)

(** Induction that follows [camel_split]: it steps over one character or
    over two. *)
Lemma camel_split_ind (P : list ascii -> Prop) :
  P [] -> (forall a, P [a]) ->
  (forall a b t, P t -> P (b :: t) -> P (a :: b :: t)) ->
  forall l, P l.
Proof.
  intros Hnil Hone Hstep.
  assert (forall l, P l /\ forall a, P (a :: l)) as H.
  { induction l as [|b t [IH1 IH2]]; split; auto. }
  intros l. apply H.
Qed.

Lemma camel_split_cons2 a b t :
  camel_split (a :: b :: t) =
  if (is_az a || is_09 a) && is_AZ b
  then a :: space :: b :: camel_split t
  else a :: camel_split (b :: t).
Proof. reflexivity. Qed.

Lemma letters_camel_split l : letters (camel_split l) = letters l.
Proof.
  induction l as [| a | a b t IH1 IH2] using camel_split_ind; try reflexivity.
  rewrite camel_split_cons2.
  destruct ((is_az a || is_09 a) && is_AZ b).
  - unfold letters in *. cbn [List.filter]. change (is_separator space) with true.
    cbn [negb]. rewrite IH1. reflexivity.
  - unfold letters in *. cbn [List.filter]. rewrite IH2. reflexivity.
Qed.

Lemma filter_replace_space l :
  List.filter not_underscore (replace_space l) = letters l.
Proof.
  induction l as [|c l IH]; [reflexivity|].
  unfold letters, replace_space in *. cbn [map List.filter]. rewrite IH.
  unfold not_underscore, is_separator.
  destruct (is_space c) eqn:Hs; [reflexivity|]. reflexivity.
Qed.

Lemma filter_lower l :
  List.filter not_underscore (lower l) = lower (List.filter not_underscore l).
Proof.
  induction l as [|c l IH]; [reflexivity|].
  unfold lower in *. cbn [map List.filter].
  assert (not_underscore (lower_char c) = not_underscore c) as E
    by (unfold not_underscore; rewrite lower_char_underscore; reflexivity).
  rewrite E, IH. destruct (not_underscore c); reflexivity.
Qed.

Lemma filter_collapse l :
  List.filter not_underscore (collapse_underscores l) = List.filter not_underscore l.
Proof.
  induction l as [|c l IH]; [reflexivity|]. cbn [collapse_underscores].
  destruct (is_underscore c && starts_with_underscore l) eqn:E.
  - apply andb_prop in E as [Hc _]. cbn [List.filter].
    assert (not_underscore c = false) as -> by (unfold not_underscore; rewrite Hc; reflexivity).
    exact IH.
  - cbn [List.filter]. rewrite IH. reflexivity.
Qed.

Lemma filter_lstrip l :
  List.filter not_underscore (lstrip_underscores l) = List.filter not_underscore l.
Proof.
  induction l as [|c l IH]; [reflexivity|]. cbn [lstrip_underscores].
  destruct (is_underscore c) eqn:Hc; [|reflexivity].
  cbn [List.filter].
  assert (not_underscore c = false) as -> by (unfold not_underscore; rewrite Hc; reflexivity).
  exact IH.
Qed.

Lemma filter_all_underscores l :
  forallb is_underscore l = true -> List.filter not_underscore l = [].
Proof.
  induction l as [|c l IH]; [reflexivity|]. cbn [forallb List.filter].
  intros H. apply andb_prop in H as [Hc Hl].
  assert (not_underscore c = false) as -> by (unfold not_underscore; rewrite Hc; reflexivity).
  auto.
Qed.

Lemma filter_rstrip l :
  List.filter not_underscore (rstrip_underscores l) = List.filter not_underscore l.
Proof.
  induction l as [|c l IH]; [reflexivity|]. rewrite rstrip_cons.
  destruct (is_underscore c && forallb is_underscore l) eqn:E.
  - apply andb_prop in E as [Hc Hl]. cbn [List.filter].
    assert (not_underscore c = false) as -> by (unfold not_underscore; rewrite Hc; reflexivity).
    symmetry. apply filter_all_underscores, Hl.
  - cbn [List.filter]. rewrite IH. reflexivity.
Qed.

(** Without its underscores, the result is the lowered name without its
    separators. *)
Lemma filter_snake_chars l :
  List.filter not_underscore (snake_chars l) = lower (letters l).
Proof.
  unfold snake_chars, strip_underscores.
  rewrite filter_rstrip, filter_lstrip, filter_collapse, filter_lower,
    filter_replace_space, letters_camel_split.
  reflexivity.
Qed.


Lemma chars_of_chars l : chars (string_of_list_ascii l) = l.
Proof. apply list_ascii_of_string_of_list_ascii. Qed.

Lemma string_of_chars s : string_of_list_ascii (chars s) = s.
Proof. apply string_of_list_ascii_of_string. Qed.


Lemma lower_nil l : lower l = [] -> l = [].
Proof. destruct l; [reflexivity | discriminate]. Qed.

Lemma letters_nil l : letters l = [] <-> forallb is_separator l = true.
Proof.
  induction l as [|c l IH]; [split; reflexivity|].
  unfold letters in *. cbn [List.filter forallb].
  destruct (is_separator c); cbn [negb andb]; [exact IH|].
  split; discriminate.
Qed.

(** X3.  The normalizer returns the empty label exactly for a name made
    of spaces and underscores only (the empty name included). *)
Theorem snake_case_empty (name : string) :
  snake_case name = "" <-> forallb is_separator (chars name) = true.
Proof.
  rewrite <- letters_nil. split.
  - intros E. apply lower_nil. rewrite <- filter_snake_chars, <- chars_snake_case, E.
    reflexivity.
  - intros E. rewrite <- (string_of_chars (snake_case name)), chars_snake_case.
    pose proof (filter_snake_chars (chars name)) as F. rewrite E in F.
    pose proof (snake_chars_normal_form (chars name)) as [_ _ _ Hs _].
    destruct (snake_chars (chars name)) as [|c l]; [reflexivity|].
    cbn [starts_with_underscore] in Hs. cbn [List.filter] in F.
    assert (not_underscore c = true) as Hn by (unfold not_underscore; rewrite Hs; reflexivity).
    rewrite Hn in F. discriminate.
Qed.

(** X4.  Among the names whose characters are code points of the range
    U+0000..U+00FF, the names the normalizer leaves unchanged are exactly
    the names in normal form: no capital, no space, no two underscores
    in a row, no underscore at either end.  (Above U+00FF there are
    capitals that [str.lower] leaves as they are; such names are not
    covered.) *)
Theorem snake_case_fixed_points (name : string) :
  (forall c, In c (chars name) -> (code c < 256)%N) /\
  (snake_case name = name <-> normalized name).
Proof.
  split; [apply chars_latin1|]. split.
  - intros E. unfold normalized. rewrite <- E, chars_snake_case.
    apply snake_chars_normal_form.
  - intros H. unfold snake_case. fold (chars name).
    rewrite (normal_form_fixed _ H). apply string_of_chars.
Qed.

(* ===================================================================== *)
(** ** Labels and lookups                                                 *)
(* ===================================================================== *)

Lemma index_of_Some label labels j :
  index_of label labels = Some j ->
  nth_error labels j = Some label /\
  forall k l, (k < j)%nat -> nth_error labels k = Some l -> l <> label.
Proof.
  revert j. induction labels as [|l0 labels IH]; intros j; simpl; [discriminate|].
  destruct (String.eqb_spec l0 label) as [->|Hne].
  - intros H. injection H as <-. split; [reflexivity|]. intros k l Hk. lia.
  - destruct (index_of label labels) as [i|]; [|discriminate].
    intros H. injection H as <-. destruct (IH i eq_refl) as [H1 H2].
    split; [exact H1|]. intros [|k] l Hk Hl.
    + injection Hl as <-. exact Hne.
    + apply (H2 k); [lia | exact Hl].
Qed.

Lemma index_of_None label labels : index_of label labels = None <-> ~ In label labels.
Proof.
  induction labels as [|l0 labels IH]; simpl; [tauto|].
  destruct (String.eqb_spec l0 label) as [->|Hne].
  - split; [discriminate | intros H; exfalso; apply H; left; reflexivity].
  - destruct (index_of label labels) as [i|].
    + split; [discriminate|]. intros H. exfalso.
      assert (~ In label labels) as H' by tauto. apply IH in H'. discriminate.
    + split; [|reflexivity]. intros _ [H|H]; [contradiction|].
      apply (proj1 IH); [reflexivity | exact H].
Qed.


Lemma index_of_nth label labels j :
  NoDup labels -> nth_error labels j = Some label -> index_of label labels = Some j.
Proof.
  intros Hnd Hj. destruct (index_of label labels) as [i|] eqn:E.
  - apply index_of_Some in E as [E _]. f_equal.
    apply NoDup_ListNoDup in Hnd.
    apply (proj1 (NoDup_nth_error labels) Hnd); [|congruence].
    apply nth_error_Some. congruence.
  - apply index_of_None in E. exfalso. apply E. eapply nth_error_In. exact Hj.
Qed.

(** X5.  Renaming keeps the data and moves every column under its
    normalized name.  When the normalized names are distinct (no two raw
    names collapse to one label), the column that stood at position [j]
    under the raw name is what the renamed frame returns for the
    normalized name, the row count is unchanged, and a label that no raw
    name normalizes to raises KeyError. *)
Theorem rename_then_lookup (data : DataFrame)
    (Hdistinct : NoDup (map snake_case (columns data))) :
  let renamed := snake_columns_rename data in
  len renamed = len data /\
  (forall j name, nth_error (columns data) j = Some name ->
     getitem renamed (snake_case name) = Ok (column_at j data)) /\
  (forall label,
     (forall name, In name (columns data) -> snake_case name <> label) ->
     getitem renamed label = Raise (KeyError label)) /\
  (forall label cells, getitem renamed label = Ok cells ->
     exists j name, nth_error (columns data) j = Some name /\
                    snake_case name = label /\ cells = column_at j data).
Proof.
  intros renamed. subst renamed. split; [reflexivity|]. split; [|split].
  - intros j name Hj. refine (getitem_at (snake_columns_rename data) _ j _).
    cbn [snake_columns_rename columns].
    apply index_of_nth; [exact Hdistinct|]. rewrite nth_error_map, Hj. reflexivity.
  - intros label Hno. unfold getitem. cbn [snake_columns_rename columns].
    assert (index_of label (map snake_case (columns data)) = None) as ->; [|reflexivity].
    apply index_of_None. rewrite in_map_iff. intros (name & H1 & H2).
    exact (Hno name H2 H1).
  - intros label cells. unfold getitem. cbn [snake_columns_rename columns].
    destruct (index_of label (map snake_case (columns data))) as [j|] eqn:E; [|discriminate].
    intros H. injection H as <-. apply index_of_Some in E as [E1 _].
    rewrite nth_error_map in E1.
    destruct (nth_error (columns data) j) as [name|] eqn:Hn; [|discriminate].
    injection E1 as E1. exists j, name. auto.
Qed.

Lemma customers_labels : NoDup (map snake_case (columns customers)).
Proof.
  apply (bool_decide_unpack (NoDup (map snake_case (columns customers)))). vm_compute. exact I.
Qed.

Lemma rename_then_lookup_customers :
  NoDup (map snake_case (columns customers)) /\
  getitem (snake_columns_rename customers) "customer_id" = Ok [Int 7; Int 8; Int 7; Int 8].
Proof.
  split; [exact customers_labels|].
  exact (proj1 (proj2 (rename_then_lookup customers customers_labels)) 0%nat "CustomerID" eq_refl).
Defined.

(* ===================================================================== *)
(** ** data_info                                                          *)
(* ===================================================================== *)

Lemma nth_error_enumerate {A} (l : list A) j x :
  nth_error l j = Some x -> nth_error (enumerate l) j = Some (j, x).
Proof.
  intros H. unfold enumerate. rewrite nth_error_combine, H.
  assert (j < length l)%nat as Hj by (apply nth_error_Some; congruence).
  rewrite nth_error_seq. destruct (Nat.ltb_spec j (length l)); [reflexivity | lia].
Qed.

Lemma length_filter_split {A} (f : A -> bool) l :
  (length (List.filter f l) + length (List.filter (fun x => negb (f x)) l) = length l)%nat.
Proof.
  induction l as [|a l IH]; simpl; [reflexivity|].
  destruct (f a); simpl; lia.
Qed.

Lemma length_column_at j data : length (column_at j data) = len data.
Proof. unfold column_at, len. apply length_map. Qed.

Lemma count_true_cons b l :
  count_true (b :: l) = ((if b then 1 else 0) + count_true l)%nat.
Proof. unfold count_true. simpl. destruct b; reflexivity. Qed.

Lemma duplicated_from_distinct (seen rs : list (list cell)) :
  (count_true (duplicated_from seen rs) +
   size ((list_to_set rs : gset (list cell)) ∖ list_to_set seen) = length rs)%nat.
Proof.
  revert seen. induction rs as [|r rs IH]; intros seen.
  - simpl. replace ((∅ : gset (list cell)) ∖ list_to_set seen) with (∅ : gset (list cell)).
    + rewrite size_empty. reflexivity.
    + apply leibniz_equiv. intros x. rewrite elem_of_difference. split.
      * intros H. exfalso. revert H. apply not_elem_of_empty.
      * intros [H _]. exact H.
  - cbn [duplicated_from length]. rewrite count_true_cons. specialize (IH (r :: seen)).
    destruct (bool_decide_reflect (r ∈ seen)) as [Hin|Hout].
    + replace ((list_to_set (r :: rs) : gset (list cell)) ∖ list_to_set seen)
        with ((list_to_set rs : gset (list cell)) ∖ list_to_set (r :: seen)); [lia|].
      apply leibniz_equiv. intros x.
      rewrite !elem_of_difference, !elem_of_list_to_set, !elem_of_cons.
      split.
      * intros [H1 H2]. split; [right; exact H1 | intros H; apply H2; right; exact H].
      * intros [[->|H1] H2]; [contradiction|]. split; [exact H1|].
        intros [->|H]; [contradiction | apply H2; exact H].
    + replace ((list_to_set (r :: rs) : gset (list cell)) ∖ list_to_set seen)
        with ({[ r ]} ∪ ((list_to_set rs : gset (list cell)) ∖ list_to_set (r :: seen))).
      * rewrite size_union.
        -- rewrite size_singleton. lia.
        -- intros x Hx1 Hx2. apply elem_of_singleton in Hx1 as ->.
           apply elem_of_difference in Hx2 as [_ Hx2]. apply Hx2.
           apply elem_of_list_to_set. left.
      * apply leibniz_equiv. intros x.
        rewrite elem_of_union, elem_of_singleton, !elem_of_difference,
          !elem_of_list_to_set, !elem_of_cons.
        split.
        -- intros [->|[H1 H2]].
           ++ split; [left; reflexivity | exact Hout].
           ++ split; [right; exact H1 | intros H; apply H2; right; exact H].
        -- intros [[->|H1] H2]; [left; reflexivity|].
           destruct (decide (x = r)) as [->|Hne]; [left; reflexivity|].
           right. split; [exact H1|]. intros [->|H]; [congruence | contradiction].
Qed.

Lemma duplicated_none (seen rs : list (list cell)) :
  count_true (duplicated_from seen rs) = 0%nat <->
  NoDup rs /\ forall r, r ∈ rs -> r ∉ seen.
Proof.
  revert seen. induction rs as [|r rs IH]; intros seen.
  - simpl. split; [|reflexivity]. intros _. split; [constructor|].
    intros r H. exfalso. revert H. apply not_elem_of_nil.
  - cbn [duplicated_from]. rewrite count_true_cons.
    destruct (bool_decide_reflect (r ∈ seen)) as [Hin|Hout].
    + split; [lia|]. intros [_ H]. exfalso. apply (H r); [left | exact Hin].
    + simpl. rewrite IH. split.
      * intros [Hnd Hs]. split.
        -- constructor; [|exact Hnd]. intros H. apply (Hs r H). left.
        -- intros x Hx. apply elem_of_cons in Hx as [->|Hx]; [exact Hout|].
           intros H. apply (Hs x Hx). right. exact H.
      * intros [Hnd Hs]. apply NoDup_cons in Hnd as [Hr Hnd]. split; [exact Hnd|].
        intros x Hx H. apply elem_of_cons in H as [->|H]; [contradiction|].
        apply (Hs x); [right; exact Hx | exact H].
Qed.

Lemma unique_from_all (seen col : list cell) :
  (length (unique_from seen col) <= length col)%nat /\
  (length (unique_from seen col) = length col ->
   NoDup col /\ forall c, c ∈ col -> c ∉ seen).
Proof.
  revert seen. induction col as [|c col IH]; intros seen.
  - simpl. split; [lia|]. intros _. split; [constructor|].
    intros c H. exfalso. revert H. apply not_elem_of_nil.
  - cbn [unique_from]. unfold mem.
    destruct (bool_decide_reflect (c ∈ seen)) as [Hin|Hout].
    + destruct (IH seen) as [Hle _]. simpl. split; [lia | lia].
    + destruct (IH (c :: seen)) as [Hle Heq]. simpl. split; [lia|].
      intros H. destruct Heq as [Hnd Hs]; [lia|]. split.
      * constructor; [|exact Hnd]. intros Hc. apply (Hs c Hc). left.
      * intros x Hx. apply elem_of_cons in Hx as [->|Hx]; [exact Hout|].
        intros H'. apply (Hs x Hx). right. exact H'.
Qed.

Lemma index_of_lt label labels j :
  index_of label labels = Some j -> (j < length labels)%nat.
Proof.
  intros H. apply index_of_Some in H as [H _]. apply nth_error_Some. congruence.
Qed.

Lemma column_at_row_cells data j :
  (j < length (columns data))%nat ->
  column_at j data = map (fun cs => nth j cs NaN) (map (row_cells data) (rows data)).
Proof.
  intros Hj. unfold column_at. rewrite map_map. apply map_ext. intros r.
  unfold row_cells.
  rewrite (nth_indep (map (fun j => nth j r NaN) (seq 0 (length (columns data))))
             NaN (nth 0 r NaN))
    by (rewrite length_map, length_seq; exact Hj).
  rewrite (map_nth (fun j => nth j r NaN)), seq_nth by exact Hj. reflexivity.
Qed.

Lemma data_info_shown data ids :
  getitem data "customer_id" = Ok ids ->
  data_info true data =
  ([PrintShape (len data) (length (columns data));
    DisplayHead (columns data) (firstn 2 (rows data));
    FrameInfo (non_null_counts data);
    DisplayDescribe data;
    DisplayIsna (isna_sum data)] ++
   [PrintUniqueIds (length (unique ids));
    PrintDuplicates (count_true (duplicated data))], Ok tt).
Proof.
  intros H. unfold data_info. cbn [negb]. rewrite H.
  destruct (columns data) eqn:E; [|reflexivity].
  unfold getitem in H. rewrite E in H. discriminate.
Qed.

(** Where [display] is not defined the call stops at its first use. *)
Lemma data_info_no_display data :
  data_info false data =
  ([PrintShape (len data) (length (columns data))], Raise (NameError "display")).
Proof. reflexivity. Qed.



(** X7.  The two counts that end the report of [data_info], in an
    IPython session and for a frame with distinct labels that has the
    column "customer_id": the call returns, and after five outputs its
    last two are the number of distinct identifiers (a missing one
    counting once) and the number of rows equal to an earlier row.  The
    duplicated rows and the distinct rows add up to the row count; there
    is no duplicated row exactly when the rows are pairwise different;
    and identifiers that are all different leave no duplicated row.
    Outside IPython the call raises NameError for [display] instead. *)
Theorem data_info_counts (data : DataFrame) (ids : list cell)
    (Hlabels : NoDup (columns data))
    (Hids : getitem data "customer_id" = Ok ids) :
  let unique_ids := length (unique ids) in
  let duplicates := count_true (duplicated data) in
  (exists shown, length shown = 5%nat /\
     data_info true data =
     (shown ++ [PrintUniqueIds unique_ids; PrintDuplicates duplicates], Ok tt)) /\
  snd (data_info false data) = Raise (NameError "display") /\
  unique_ids = distinct ids /\
  (unique_ids <= len data)%nat /\
  (duplicates + distinct_rows data = len data)%nat /\
  (duplicates = 0%nat <-> NoDup (map (row_cells data) (rows data))) /\
  (unique_ids = len data -> duplicates = 0%nat).
Proof.
  intros unique_ids duplicates. subst unique_ids duplicates.
  pose proof (getitem_length _ _ _ Hids) as Hlen.
  destruct (unique_from_all [] ids) as [Hle Hall].
  fold (unique ids) in Hle, Hall.
  assert (count_true (duplicated data) = 0%nat <->
          NoDup (map (row_cells data) (rows data))) as Hnone.
  { unfold duplicated. rewrite duplicated_none. split; [tauto|].
    intros H. split; [exact H|]. intros r _. apply not_elem_of_nil. }
  split.
  { eexists. split; [|apply (data_info_shown data ids Hids)]. reflexivity. }
  split; [reflexivity|].
  split; [apply length_unique|]. split; [lia|]. split; [|split].
  - pose proof (duplicated_from_distinct [] (map (row_cells data) (rows data))) as H.
    fold (duplicated data) in H. rewrite length_map in H. fold (len data) in H.
    unfold distinct_rows.
    replace ((list_to_set (map (row_cells data) (rows data)) : gset (list cell))
               ∖ list_to_set []) with
      (list_to_set (map (row_cells data) (rows data)) : gset (list cell)) in H;
      [exact H|].
    apply leibniz_equiv. intros x. rewrite elem_of_difference.
    split; [|tauto]. intros Hx. split; [exact Hx|]. simpl. apply not_elem_of_empty.
  - exact Hnone.
  - intros Hu. apply Hnone. destruct Hall as [Hnd _]; [lia|].
    unfold getitem in Hids.
    destruct (index_of "customer_id" (columns data)) as [j|] eqn:E; [|discriminate].
    injection Hids as <-. rewrite (column_at_row_cells data j (index_of_lt _ _ _ E)) in Hnd.
    eapply NoDup_fmap_1. exact Hnd.
Qed.

Lemma data_info_counts_customers :
  NoDup (columns (snake_columns_rename customers)) /\
  getitem (snake_columns_rename customers) "customer_id" = Ok [Int 7; Int 8; Int 7; Int 8] /\
  (count_true (duplicated (snake_columns_rename customers)) +
   distinct_rows (snake_columns_rename customers) = 4)%nat.
Proof.
  split; [exact customers_labels|]. split; [reflexivity|].
  refine (proj1 (proj2 (proj2 (proj2 (proj2
    (data_info_counts (snake_columns_rename customers) [Int 7; Int 8; Int 7; Int 8]
       customers_labels eq_refl)))))).
Defined.

(** X8.  The two per-column tables of [data_info], which an IPython
    session shows for every frame that has a column: for the column at
    any position, the missing count shown by [isna().sum()] and the
    non-null count shown by [info()] add up to the row count, and the
    non-null count is the sum of the column's value counts.  Outside
    IPython the call stops after the shape and shows neither table. *)
Theorem missing_counts (data : DataFrame) (j : nat) (label : string)
    (Hj : nth_error (columns data) j = Some label) :
  In (FrameInfo (non_null_counts data)) (fst (data_info true data)) /\
  In (DisplayIsna (isna_sum data)) (fst (data_info true data)) /\
  fst (data_info false data) = [PrintShape (len data) (length (columns data))] /\
  exists missing present,
    nth_error (isna_sum data) j = Some (label, missing) /\
    nth_error (non_null_counts data) j = Some (label, present) /\
    (missing + present = len data)%nat /\
    present = sum_nat (values (value_counts (column_at j data))).
Proof.
  split; [|split; [|split]].
  - unfold data_info. cbn [negb]. destruct (columns data); [simpl; tauto|].
    destruct (getitem _ _); simpl; tauto.
  - unfold data_info. cbn [negb]. destruct (columns data); [destruct j; discriminate|].
    destruct (getitem _ _); simpl; tauto.
  - reflexivity.
  - exists (length (List.filter is_nan (column_at j data))),
           (length (dropna (column_at j data))).
    unfold isna_sum, non_null_counts.
    rewrite !nth_error_map, (nth_error_enumerate _ _ _ Hj). cbn [option_map fst snd].
    split; [reflexivity|]. split; [reflexivity|]. split.
    + unfold dropna. rewrite length_filter_split. apply length_column_at.
    + symmetry. apply sum_value_counts.
Qed.

Lemma missing_counts_customers :
  nth_error (columns customers) 1 = Some "Total Charge" /\
  exists missing present,
    nth_error (isna_sum customers) 1 = Some ("Total Charge", missing) /\
    nth_error (non_null_counts customers) 1 = Some ("Total Charge", present) /\
    (missing + present = len customers)%nat /\
    present = sum_nat (values (value_counts (column_at 1 customers))).
Proof.
  split; [reflexivity|].
  exact (proj2 (proj2 (proj2 (missing_counts customers 1 "Total Charge" eq_refl)))).
Defined.

(* ===================================================================== *)
(** ** A column that is absent                                            *)
(* ===================================================================== *)

Lemma for_each_app {A} (body : A -> Plot unit) pre post :
  for_each (pre ++ post) body = (for_each pre body ;; for_each post body).
Proof.
  induction pre as [|x pre IH]; cbn [app for_each].
  - unfold ret, bind. destruct (for_each post body). reflexivity.
  - rewrite IH. destruct (body x) as [w [[]|e]]; cbn [bind]; [|reflexivity].
    destruct (for_each pre body) as [w1 [[]|e1]]; cbn [bind]; [|reflexivity].
    destruct (for_each post body) as [w2 r2]. rewrite app_assoc. reflexivity.
Qed.

Lemma for_each_stops {A} (body : A -> Plot unit) pre x post e :
  body x = ([], Raise e) ->
  calls (for_each (pre ++ x :: post) body) = calls (for_each pre body) /\
  outcome (for_each (pre ++ x :: post) body) =
    match outcome (for_each pre body) with
    | Ok _ => Raise e
    | Raise e' => Raise e'
    end.
Proof.
  intros Hx. rewrite for_each_app. cbn [for_each]. rewrite Hx.
  destruct (for_each pre body) as [w [[]|e']]; cbn [bind calls outcome fst snd].
  - rewrite app_nil_r. auto.
  - auto.
Qed.

Lemma getitem_missing data column :
  ~ has_column data column -> getitem data column = Raise (KeyError column).
Proof.
  unfold has_column, getitem. destruct (index_of column (columns data)); [|reflexivity].
  intros H. exfalso. apply H. discriminate.
Qed.

Lemma has_column_index data column :
  has_column data column -> exists j, index_of column (columns data) = Some j.
Proof.
  unfold has_column. destruct (index_of column (columns data)) as [j|]; [eauto | congruence].
Qed.

Lemma query_cohort keep data name v i :
  index_of name (columns data) = Some i ->
  query keep data name v =
  Ok {| columns := columns data;
        rows := List.filter (fun r => keep (is_churned v i r)) (rows data) |}.
Proof. intros H. unfold query. rewrite H. reflexivity. Qed.

(** X9.  A listed column that the data set lacks stops the three routines
    that draw one figure per column: [numeric_graph],
    [category_graph_compare] and [numeric_graph_compare] (the two last on
    a data set that has the target column) make exactly the calls of the
    run over the columns listed before it, nothing for it or for the
    columns after it, and raise KeyError for it unless an earlier column
    has raised already. *)
Theorem missing_column_stops_the_run (data : DataFrame) (cfg : PlotCfg)
    (pre post : list string) (column : string)
    (Hmissing : ~ has_column data column) :
  stops_at (fun num_cols => numeric_graph data num_cols cfg) pre column post /\
  (has_column data (target_col cfg) ->
   stops_at (fun cat_columns => category_graph_compare data cat_columns cfg)
            pre column post /\
   stops_at (fun num_cols => numeric_graph_compare data num_cols cfg)
            pre column post).
Proof.
  split.
  - unfold stops_at, numeric_graph. apply for_each_stops.
    unfold numeric_chart. rewrite (getitem_missing _ _ Hmissing). reflexivity.
  - intros Ht. apply has_column_index in Ht as [i Hi].
    unfold stops_at, category_graph_compare, numeric_graph_compare, query_eq, query_ne.
    rewrite !(query_cohort _ _ _ _ _ Hi), !bind_lift_ok. split.
    + apply for_each_stops. unfold compare_column.
      rewrite getitem_missing; [reflexivity | exact Hmissing].
    + apply for_each_stops. unfold numeric_compare_chart.
      rewrite getitem_missing; [reflexivity | exact Hmissing].
Qed.

Lemma missing_column_stops_the_run_scenario :
  ~ has_column scenario "tariff" /\
  outcome (numeric_graph scenario ["target"; "tariff"; "plan"] default_cfg) =
    Raise (KeyError "tariff") /\
  length (List.filter is_show
            (calls (numeric_graph scenario ["target"; "tariff"; "plan"] default_cfg))) = 2%nat.
Proof.
  assert (~ has_column scenario "tariff") as H by (intros H; apply H; reflexivity).
  split; [exact H|].
  destruct (proj1 (missing_column_stops_the_run scenario default_cfg
                     ["target"] ["plan"] "tariff" H)) as [H1 H2].
  split; [exact H2 | cbn beta in H1; cbn [app] in H1; rewrite H1; reflexivity].
Defined.





(* ===================================================================== *)
(** ** numeric_graph_compare                                              *)
(* ===================================================================== *)

(** X11.  On a data set with distinct labels that has the target column,
    its label being a Python identifier, and every listed column, the
    listed columns holding numbers,
    [numeric_graph_compare] returns, and for each listed column it draws
    two histograms on the same axes: one of the column's cells in the
    rows whose target equals the churn value, one of its cells in the
    other rows.  Together the two are the cells of the column: no row is
    left out and none is drawn twice. *)
Theorem cohort_histograms_split_the_column (data : DataFrame) (cfg : PlotCfg)
    (num_cols : list string) (i : nat)
    (Hlabels : NoDup (columns data))
    (Hname : is_identifier (target_col cfg) = true)
    (Htarget : index_of (target_col cfg) (columns data) = Some i)
    (Hcols : forall column, In column num_cols -> has_column data column)
    (Hnumbers : forall column cells, In column num_cols ->
       getitem data column = Ok cells -> forallb is_number cells = true) :
  let run := numeric_graph_compare data num_cols cfg in
  let churned := List.filter (is_churned (churn_value cfg) i) (rows data) in
  let retained :=
    List.filter (fun r => negb (is_churned (churn_value cfg) i r)) (rows data) in
  outcome run = Ok tt /\
  length (List.filter is_show (calls run)) = length num_cols /\
  (forall column j, In column num_cols -> index_of column (columns data) = Some j ->
     let of_column := map (fun r => nth j r NaN) in
     In (FrameHistStep (of_column churned) Churned false) (calls run) /\
     In (FrameHistStep (of_column retained) Retained true) (calls run) /\
     Permutation (of_column churned ++ of_column retained) (column_at j data)) /\
  (forall cells label same_axes, In (FrameHistStep cells label same_axes) (calls run) ->
     exists column j, In column num_cols /\ index_of column (columns data) = Some j /\
       cells = map (fun r => nth j r NaN)
                 (match label with Churned => churned | Retained => retained end) /\
       same_axes = match label with Churned => false | Retained => true end).
Proof.
  intros run churned retained.
  set (cd := {| columns := columns data; rows := churned |}).
  set (rd := {| columns := columns data; rows := retained |}).
  assert (run = for_each num_cols (numeric_compare_chart cd rd)) as Hrun.
  { unfold run, numeric_graph_compare, query_eq, query_ne.
    rewrite !(query_cohort _ _ _ _ _ Htarget), !bind_lift_ok. reflexivity. }
  assert (forall column j, index_of column (columns data) = Some j ->
            numeric_compare_chart cd rd column =
            ([FrameHistStep (map (fun r => nth j r NaN) churned) Churned false;
              FrameHistStep (map (fun r => nth j r NaN) retained) Retained true;
              PltTitle (TitleCompareShare column); PltXLabel (LabelColumn column);
              PltYLabel LabelSubscribers; PltShow], Ok tt)) as Hbody.
  { intros column j Hj. unfold numeric_compare_chart.
    rewrite (getitem_at cd column j Hj), bind_lift_ok.
    rewrite (getitem_at rd column j Hj). reflexivity. }
  assert (outcome run = Ok tt) as Hok.
  { rewrite Hrun. apply for_each_ok. intros column Hin.
    destruct (has_column_index _ _ (Hcols column Hin)) as [j Hj].
    rewrite (Hbody column j Hj). reflexivity. }
  split; [exact Hok|]. split; [|split].
  - rewrite Hrun. clear Hrun Hok Hnumbers. induction num_cols as [|c cols IH]; [reflexivity|].
    cbn [for_each].
    destruct (has_column_index _ _ (Hcols c (or_introl eq_refl))) as [j Hj].
    rewrite (Hbody c j Hj), bind_pair. cbn [calls fst].
    cbn [app List.filter is_show length]. f_equal.
    apply IH. intros column Hin. apply Hcols. right. exact Hin.
  - intros column j Hin Hj of_column. split; [|split].
    + rewrite Hrun. rewrite Hrun in Hok.
      apply (for_each_ok_calls _ _ column _ Hok Hin). rewrite (Hbody column j Hj).
      left. reflexivity.
    + rewrite Hrun. rewrite Hrun in Hok.
      apply (for_each_ok_calls _ _ column _ Hok Hin). rewrite (Hbody column j Hj).
      right. left. reflexivity.
    + unfold of_column, column_at. rewrite <- map_app. apply Permutation_map.
      symmetry. apply filter_split.
  - intros cells label same_axes Hin. rewrite Hrun in Hin.
    apply in_calls_for_each in Hin as (column & Hc & Hin).
    destruct (has_column_index _ _ (Hcols column Hc)) as [j Hj].
    rewrite (Hbody column j Hj) in Hin. exists column, j.
    split; [exact Hc|]. split; [exact Hj|].
    cbn [calls fst] in Hin.
    destruct Hin as [H|[H|H]].
    + injection H as <- <- <-. auto.
    + injection H as <- <- <-. auto.
    + exfalso. repeat (destruct H as [H|H]; [discriminate|]). exact H.
Qed.

Lemma cohort_histograms_split_the_column_usage :
  NoDup (columns usage) /\
  is_identifier (target_col default_cfg) = true /\
  outcome (numeric_graph_compare usage ["minutes"] default_cfg) = Ok tt /\
  In (FrameHistStep [Int 120; Int 45] Churned false)
     (calls (numeric_graph_compare usage ["minutes"] default_cfg)) /\
  In (FrameHistStep [Int 300] Retained true)
     (calls (numeric_graph_compare usage ["minutes"] default_cfg)).
Proof.
  assert (NoDup (columns usage)) as Hnd
    by (apply (bool_decide_unpack (NoDup (columns usage))); vm_compute; exact I).
  assert (forall column, In column ["minutes"] -> has_column usage column) as Hcols
    by (intros column [<-|[]]; discriminate).
  assert (forall column cells, In column ["minutes"] ->
            getitem usage column = Ok cells -> forallb is_number cells = true) as Hnum
    by (intros column cells [<-|[]] H; injection H as <-; reflexivity).
  destruct (cohort_histograms_split_the_column usage default_cfg ["minutes"] 0
              Hnd eq_refl eq_refl Hcols Hnum) as (H1 & _ & H3 & _).
  destruct (H3 "minutes" 1%nat (or_introl eq_refl) eq_refl) as (H4 & H5 & _).
  split; [exact Hnd|]. split; [reflexivity|].
  split; [exact H1|]. split; [exact H4 | exact H5].
Defined.

(* ===================================================================== *)
(** ** The order of value_counts and the labels of a bar chart            *)
(* ===================================================================== *)

Lemma in_insert_desc e l x : In x (insert_desc e l) -> x = e \/ In x l.
Proof.
  induction l as [|y l IH]; simpl.
  - intros [<-|[]]. left. reflexivity.
  - destruct (snd y <=? snd e)%nat.
    + intros [<-|H]; [left; reflexivity | right; exact H].
    + intros [<-|H]; [right; left; reflexivity|].
      destruct (IH H) as [->|H']; [left; reflexivity | right; right; exact H'].
Qed.

Lemma insert_desc_sorted e l :
  StronglySorted by_count l -> StronglySorted by_count (insert_desc e l).
Proof.
  induction 1 as [|y l Hs IH Hy]; simpl.
  - constructor; constructor.
  - destruct (Nat.leb_spec (snd y) (snd e)) as [Hle|Hlt].
    + constructor; [constructor; assumption|].
      constructor; [exact Hle|].
      rewrite List.Forall_forall in Hy |- *. intros x Hx. specialize (Hy x Hx).
      unfold by_count in *. lia.
    + constructor; [exact IH|].
      rewrite List.Forall_forall in Hy |- *. intros x Hx.
      apply in_insert_desc in Hx as [->|Hx]; [unfold by_count; lia | exact (Hy x Hx)].
Qed.

Lemma sort_desc_sorted l : StronglySorted by_count (sort_desc l).
Proof.
  induction l as [|e l IH]; simpl; [constructor | apply insert_desc_sorted, IH].
Qed.

Lemma sorted_nth (l : list (cell * nat)) i j e1 e2 :
  StronglySorted by_count l -> (i <= j)%nat ->
  nth_error l i = Some e1 -> nth_error l j = Some e2 -> (snd e2 <= snd e1)%nat.
Proof.
  intros Hs. revert i j. induction Hs as [|y l Hs IH Hy]; intros i j Hij H1 H2.
  - destruct i; discriminate.
  - destruct i as [|i]; destruct j as [|j]; cbn [nth_error] in H1, H2.
    + injection H1 as <-. injection H2 as <-. lia.
    + injection H1 as <-. rewrite List.Forall_forall in Hy.
      apply (Hy e2). eapply nth_error_In. exact H2.
    + lia.
    + apply (IH i j); [lia | exact H1 | exact H2].
Qed.

(** X12.  The categories of a chart come in the order of [value_counts]:
    an entry is counted at least as often as every entry after it.  Each
    value of the column other than the missing one has exactly one
    entry, which holds the number of its occurrences in the column, a
    positive number. *)
Theorem value_counts_most_frequent_first (cells : list cell) :
  let counts := value_counts cells in
  (forall i j v c w d, (i <= j)%nat ->
     nth_error counts i = Some (v, c) -> nth_error counts j = Some (w, d) ->
     (d <= c)%nat) /\
  NoDup (index counts) /\
  (forall v, In v (index counts) <-> In v cells /\ v <> NaN) /\
  (forall v c, In (v, c) counts -> c = occurrences v cells /\ (0 < c)%nat) /\
  length counts = distinct (dropna cells).
Proof.
  intros counts. split; [|split; [|split; [|split]]].
  - intros i j v c w d Hij H1 H2.
    exact (sorted_nth counts i j (v, c) (w, d) (sort_desc_sorted _) Hij H1 H2).
  - apply NoDup_index_value_counts.
  - intros v. unfold index. rewrite in_map_iff. split.
    + intros ([v' c] & E & H). cbn in E. subst v'.
      apply in_value_counts in H. tauto.
    + intros [H1 H2]. exists (v, occurrences v cells). split; [reflexivity|].
      apply in_value_counts. auto.
  - intros v c H. split.
    + apply in_value_counts in H. tauto.
    + apply value_counts_bounds in H. lia.
  - rewrite <- length_unique.
    rewrite <- (Permutation_length (index_value_counts_perm cells)).
    unfold index. rewrite length_map. reflexivity.
Qed.

Lemma for_each_emit {A} (l : list A) (f : A -> call) :
  for_each l (fun e => emit (f e)) = (map f l, Ok tt).
Proof.
  induction l as [|x l IH]; cbn [for_each map]; [reflexivity|].
  rewrite bind_emit, IH. reflexivity.
Qed.

Lemma fold_max_head rest x :
  (forall y, In y rest -> (y <= x)%nat) -> fold_left Nat.max rest x = x.
Proof.
  induction rest as [|y rest IH]; intros H; cbn [fold_left]; [reflexivity|].
  rewrite Nat.max_l by (apply H; left; reflexivity).
  apply IH. intros z Hz. apply H. right. exact Hz.
Qed.

Lemma max_of_value_counts cells top m :
  nth_error (value_counts cells) 0 = Some (top, m) ->
  max_of (values (value_counts cells)) = Ok m.
Proof.
  intros H. pose proof (sort_desc_sorted
    (map (fun v => (v, occurrences v cells)) (unique (dropna cells)))) as Hs.
  fold (value_counts cells) in Hs.
  destruct (value_counts cells) as [|e counts]; [discriminate|].
  injection H as ->. cbn [values map max_of snd]. f_equal.
  apply fold_max_head. intros y Hy. apply in_map_iff in Hy as (e & <- & He).
  apply StronglySorted_inv in Hs as [_ Hs]. rewrite List.Forall_forall in Hs.
  exact (Hs e He).
Qed.

(** The label of a bar, 0.02 times the largest count above the bar, is
    below the limit of the axis, 1.2 times the largest count; the sums
    and products are those of doubles. *)
Lemma label_below_limit count m :
  (0 < count <= m)%nat ->
  (fadd (to_double count) (fmul (to_double m) (fl (1 # 50)))
   < fmul (to_double m) (fl (6 # 5)))%Q.
Proof.
  intros [Hc Hm]. unfold fadd, fmul, to_double.
  pose proof (of_nat_pos count Hc) as HC0. pose proof (of_nat_le _ _ Hm) as HCM.
  set (C := of_nat count) in *. set (M := of_nat m) in *.
  destruct (fl_bounds C ltac:(lra)) as [HC1 HC2].
  destruct (fl_bounds M ltac:(lra)) as [HM1 HM2].
  rewrite u_value in *.
  set (tc := fl C) in *. set (tm := fl M) in *.
  assert (0 < tm)%Q as Htm by nra.
  assert (tc <= (1001 # 1000) * tm)%Q as Htc by nra.
  assert (0 <= fl (1 # 50) <= 201 # 10000)%Q as [Hs0 Hs1]
    by (split; vm_compute; discriminate).
  assert (1199 # 1000 <= fl (6 # 5))%Q as Hl by (vm_compute; discriminate).
  set (s := fl (1 # 50)) in *. set (l := fl (6 # 5)) in *.
  assert (0 <= tm * s)%Q as Hp0 by nra.
  destruct (fl_bounds (tm * s) Hp0) as [_ Hp]. rewrite u_value in Hp.
  set (p := fl (tm * s)) in *.
  assert (p <= (202 # 10000) * tm)%Q as Hp' by nra.
  assert (0 <= tc)%Q as Htc0 by nra.
  pose proof (fl_nonneg (tm * s) Hp0) as Hp1. fold p in Hp1.
  destruct (fl_bounds (tc + p) ltac:(lra)) as [_ Hy]. rewrite u_value in Hy.
  set (y := fl (tc + p)) in *.
  assert (0 <= tm * l)%Q as Hl0 by nra.
  destruct (fl_bounds (tm * l) Hl0) as [Hlim _]. rewrite u_value in Hlim.
  set (lim := fl (tm * l)) in *.
  assert (y <= (103 # 100) * tm)%Q by nra.
  assert ((119 # 100) * tm <= lim)%Q by nra.
  lra.
Qed.

(** X13.  The labels of a bar chart of [category_graph] fit under the
    upper limit of its y axis.  The limit is the largest count times
    1.2, the largest count being that of the first category.  Every
    category gets one label, at its own tick, 0.02 times the largest
    count above its bar; the label shows the count of the category and
    its share of the rows of the data set, rounded to the precision; and
    it is anchored below the limit.  No other label is written.  The
    limit, the heights and the shares are the doubles the source
    computes; the precision is taken between -22 and 22. *)
Theorem bar_chart_labels (data : DataFrame) (column : string) (cells : list cell)
    (ax : axis) (d : Z)
    (Hcells : getitem data column = Ok cells)
    (Hvalues : value_counts cells <> [])
    (Hd : (-22 <= d <= 22)%Z) :
  let counts := value_counts cells in
  let run := bar_chart ax column counts (percentages counts (len data) d) in
  let limit m := fmul (to_double m) (fl (6 # 5)) in
  let height count m := fadd (to_double count) (fmul (to_double m) (fl (1 # 50))) in
  let label i count m :=
    AxText ax (of_nat i) (height count m)
      (CountPct count (np_round d (share count (len data)))) in
  exists top m,
    nth_error counts 0 = Some (top, m) /\
    In (AxSetYLim ax 0 (limit m)) (calls run) /\
    (forall i v count, nth_error counts i = Some (v, count) ->
       (0 < count <= m)%nat /\ (m <= len data)%nat /\
       In (label i count m) (calls run) /\
       (height count m < limit m)%Q) /\
    (forall c, In c (calls run) -> is_text c = true ->
       exists i v count, nth_error counts i = Some (v, count) /\ c = label i count m).
Proof.
  intros counts run limit height label.
  destruct counts as [|[top m] rest] eqn:E; [contradiction|].
  exists top, m. split; [reflexivity|].
  assert (max_of (values counts) = Ok m) as Hmax.
  { apply (max_of_value_counts cells top). fold counts. rewrite E. reflexivity. }
  set (texts := map (fun e : nat * (nat * Q) =>
                       AxText ax (of_nat (fst e)) (height (fst (snd e)) m)
                         (CountPct (fst (snd e)) (snd (snd e))))
                    (enumerate (combine (values counts)
                                  (values (percentages counts (len data) d))))).
  assert (exists bars,
            run = (AxBar ax bars None :: AxSetXTicks ax (arange (length counts)) ::
                   AxSetXTickLabels ax (index counts) ::
                   AxSetTitle ax (TitleDistribution column) ::
                   AxSetYLabel ax LabelSubscribers ::
                   AxSetYLim ax 0 (limit m) :: texts, Ok tt))
    as [bars Hrun].
  { eexists. unfold run. rewrite <- E. unfold bar_chart.
    erewrite calls_ax_bar_ok
      by (apply broadcast_same; rewrite length_arange, length_map, length_values; reflexivity).
    rewrite bind_pair. rewrite !bind_emit. rewrite Hmax, bind_lift_ok, bind_emit.
    rewrite for_each_emit. cbn [calls outcome fst snd app]. reflexivity. }
  assert (forall i count pct,
            nth_error (combine (values counts) (values (percentages counts (len data) d))) i
              = Some (count, pct) <->
            exists v, nth_error counts i = Some (v, count) /\
                      pct = np_round d (share count (len data))) as Hnth.
  { intros i count pct. rewrite nth_error_combine. unfold values, percentages.
    rewrite map_map, !nth_error_map. cbn [fst snd].
    destruct (nth_error counts i) as [[v c]|]; cbn [option_map snd].
    - split.
      + intros H. injection H as <- <-. exists v. auto.
      + intros (v' & H & ->). injection H as _ <-. reflexivity.
    - split; [discriminate | intros (v' & H & _); discriminate]. }
  rewrite <- E. rewrite Hrun. cbn [calls fst].
  split; [do 5 right; left; reflexivity|]. split.
  - intros i v count Hi.
    assert (In (v, count) (value_counts cells)) as Hin
      by (eapply nth_error_In; exact Hi).
    pose proof (value_counts_bounds _ _ _ Hin) as Hb.
    assert (count <= m)%nat as Hle.
    { apply (sorted_nth counts 0 i (top, m) (v, count) (sort_desc_sorted _));
        [lia | rewrite E; reflexivity | exact Hi]. }
    assert (In (top, m) (value_counts cells)) as Htop
      by (fold counts; rewrite E; left; reflexivity).
    pose proof (value_counts_bounds _ _ _ Htop) as Hm.
    rewrite (getitem_length _ _ _ Hcells) in Hm.
    split; [lia|]. split; [lia|]. split.
    + do 6 right. unfold texts. apply in_map_iff.
      exists (i, (count, np_round d (share count (len data)))). split; [reflexivity|].
      apply in_enumerate, Hnth. exists v. auto.
    + apply label_below_limit. lia.
  - intros c Hc Ht.
    destruct Hc as [<-|[<-|[<-|[<-|[<-|[<-|Hc]]]]]]; try discriminate.
    unfold texts in Hc. apply in_map_iff in Hc as ([i [count pct]] & <- & Hc).
    apply in_enumerate, Hnth in Hc as (v & Hi & ->).
    exists i, v, count. split; [exact Hi | reflexivity].
Qed.

Lemma bar_chart_labels_uneven :
  getitem uneven "plan" = Ok (column_at 1 uneven) /\
  value_counts (column_at 1 uneven) <> [] /\
  (-22 <= 1 <= 22)%Z /\
  exists top m, nth_error (value_counts (column_at 1 uneven)) 0 = Some (top, m) /\
    In (AxSetYLim (0, 0)%nat 0 (fmul (to_double m) (fl (6 # 5))))
       (calls (bar_chart (0, 0)%nat "plan" (value_counts (column_at 1 uneven))
                 (percentages (value_counts (column_at 1 uneven)) (len uneven) 1))).
Proof.
  split; [reflexivity|]. split; [discriminate|]. split; [lia|].
  destruct (bar_chart_labels uneven "plan" (column_at 1 uneven) (0, 0)%nat 1 eq_refl
              ltac:(discriminate) ltac:(lia)) as (top & m & H1 & H2 & _).
  exists top, m. split; [exact H1 | exact H2].
Defined.

(* ===================================================================== *)
(** ** A cohort with one category                                         *)
(* ===================================================================== *)

Lemma compare_chart_one_churned cfg column a n p r1 r2 rcs q1 q2 rps :
  (0 <= percent_decimals cfg)%Z ->
  let rc := r1 :: r2 :: rcs in
  let rp := q1 :: q2 :: rps in
  let run := compare_chart cfg column [(a, n)] [(a, p)] rc rp in
  outcome run = Ok tt /\
  (exists x bars, In (AxBar (0, 0)%nat bars (Some Retained)) (calls run) /\
     map get_height bars = values rp /\ forall b, In b bars -> get_x b = x) /\
  length (List.filter is_text (calls run)) = 2%nat /\
  In (AxSetXTicks (0, 0)%nat (arange 1)) (calls run).
Proof.
  intros Hd rc rp run.
  assert ((percent_decimals cfg <? 0)%Z = false) as Hlt by (apply Z.ltb_ge; exact Hd).
  subst run rc rp. destruct r1 as [v1 n1], r2 as [v2 n2], q1 as [w1 p1], q2 as [w2 p2].
  unfold compare_chart, ax_bar, label_pair, check_precision. rewrite Hlt.
  cbn -[Qplus Qminus Qdiv Qmult Qopp of_nat bar_width In].
  split; [reflexivity|]. split; [|split; [reflexivity|]].
  - eexists. eexists. split; [right; right; left; reflexivity|].
    split.
    + cbn [map get_height]. do 2 f_equal. rewrite !map_map. reflexivity.
    + intros b [<-|[<-|H]]; [reflexivity | reflexivity |].
      rewrite map_map in H. apply in_map_iff in H as (y & <- & _). reflexivity.
  - cbn [In]. tauto.
Qed.

Lemma compare_chart_one_retained cfg column c1 c2 ccs k1 k2 cps v n p :
  (0 <= percent_decimals cfg)%Z ->
  let cc := c1 :: c2 :: ccs in
  let cp := k1 :: k2 :: cps in
  let run := compare_chart cfg column cc cp [(v, n)] [(v, p)] in
  outcome run = Raise IndexError /\
  (exists bars, In (AxBar (0, 0)%nat bars (Some Retained)) (calls run) /\
     length bars = length cp /\ forall b, In b bars -> get_height b = p) /\
  length (List.filter is_text (calls run)) = 3%nat /\
  ~ In PltShow (calls run).
Proof.
  intros Hd cc cp run.
  assert ((percent_decimals cfg <? 0)%Z = false) as Hlt by (apply Z.ltb_ge; exact Hd).
  assert (broadcast (map (fun x => x + bar_width / 2)%Q (arange (length cp))) (values [(v, p)])
          = Ok (map (fun x => (x, p))
                  (map (fun x => x + bar_width / 2)%Q (arange (length cp))))) as E
    by reflexivity.
  subst run. rewrite (compare_chart_drawn cfg column cc cp [(v, n)] [(v, p)] _ E).
  subst cc cp. destruct c1 as [a1 n1], c2 as [a2 n2], k1 as [b1 p1], k2 as [b2 p2].
  unfold label_pair, check_precision. rewrite Hlt.
  cbn -[Qplus Qminus Qdiv Qmult Qopp of_nat bar_width In].
  split; [reflexivity|]. split; [|split; [reflexivity|]].
  - eexists. split; [right; right; left; reflexivity|]. split.
    + cbn [length]. rewrite !length_map, length_seq. reflexivity.
    + intros b [<-|[<-|H]]; [reflexivity | reflexivity |].
      rewrite !map_map in H. apply in_map_iff in H as (y & <- & _). reflexivity.
  - cbn [In]. intros H. repeat (destruct H as [H|H]; [discriminate|]). exact H.
Qed.

(** X14.  What [category_graph_compare] draws for a column in which one
    cohort has a single category and the other has several (the case
    that the shape check of [ax.bar] lets through), the precision not
    being negative.  With one churned category the chart is completed:
    all the retained bars are drawn at the same place, beside the one
    tick, and only the first pair of bars is labelled.  With one retained
    category the retained percentage is repeated beside every churned
    bar, and the labelling loop raises IndexError at the second pair,
    after three labels; the figure is not shown. *)
Theorem one_category_cohort (cfg : PlotCfg) (churned retained : DataFrame)
    (column : string) (cc rc : list cell)
    (Hcc : getitem churned column = Ok cc)
    (Hrc : getitem retained column = Ok rc)
    (Hd : (0 <= percent_decimals cfg)%Z) :
  let d := percent_decimals cfg in
  let cp := percentages (value_counts cc) (len churned) d in
  let rp := percentages (value_counts rc) (len retained) d in
  let run := compare_column cfg churned retained column in
  let ax : axis := (0, 0)%nat in
  (length cp = 1%nat -> (2 <= length rp)%nat ->
     outcome run = Ok tt /\
     (exists x bars, In (AxBar ax bars (Some Retained)) (calls run) /\
        map get_height bars = values rp /\ forall b, In b bars -> get_x b = x) /\
     length (List.filter is_text (calls run)) = 2%nat /\
     In (AxSetXTicks ax (arange 1)) (calls run)) /\
  ((2 <= length cp)%nat -> length rp = 1%nat ->
     outcome run = Raise IndexError /\
     (exists v p bars, rp = [(v, p)] /\ In (AxBar ax bars (Some Retained)) (calls run) /\
        length bars = length cp /\ forall b, In b bars -> get_height b = p) /\
     length (List.filter is_text (calls run)) = 3%nat /\
     ~ In PltShow (calls run)).
Proof.
  intros d cp rp run ax. subst run.
  rewrite (compare_column_eq cfg churned retained column cc rc Hcc Hrc).
  fold d. fold cp. fold rp. subst cp rp.
  split.
  - intros H1 H2. rewrite length_percentages in H1, H2.
    destruct (value_counts cc) as [|[a n] [|? ?]]; try discriminate.
    destruct (value_counts rc) as [|r1 [|r2 rcs]]; cbn [length] in H2; try lia.
    exact (compare_chart_one_churned cfg column a n _ r1 r2 rcs _ _ _ Hd).
  - intros H1 H2. rewrite length_percentages in H1, H2.
    destruct (value_counts rc) as [|[v n] [|? ?]]; try discriminate.
    destruct (value_counts cc) as [|c1 [|c2 ccs]]; cbn [length] in H1; try lia.
    destruct (compare_chart_one_retained cfg column c1 c2 ccs
                (fst c1, np_round d (share (snd c1) (len churned)))
                (fst c2, np_round d (share (snd c2) (len churned)))
                (percentages ccs (len churned) d) v n
                (np_round d (share n (len retained))) Hd) as (R1 & (bars & R2) & R3 & R4).
    split; [exact R1|]. split; [|split; [exact R3 | exact R4]].
    exists v, (np_round d (share n (len retained))), bars. split; [reflexivity | exact R2].
Qed.

Lemma one_category_cohort_lone :
  let churned := {| columns := ["target"; "plan"]; rows := [[Int 1; Str "A"]] |} in
  let retained := {| columns := ["target"; "plan"];
                     rows := [[Int 0; Str "B"]; [Int 0; Str "C"]] |} in
  let run := compare_column default_cfg churned retained "plan" in
  getitem retained "plan" = Ok [Str "B"; Str "C"] /\
  outcome run = Ok tt /\ length (List.filter is_text (calls run)) = 2%nat.
Proof.
  intros churned retained run. split; [reflexivity|].
  destruct (proj1 (one_category_cohort default_cfg churned retained "plan"
                     [Str "A"] [Str "B"; Str "C"] eq_refl eq_refl ltac:(discriminate))
              eq_refl ltac:(vm_compute; lia)) as (H1 & _ & H3 & _).
  split; [exact H1 | exact H3].
Defined.

(* ===================================================================== *)
(** ** A negative precision                                               *)
(* ===================================================================== *)

(** X15.  A negative [percent_decimals] is accepted by the rounding of
    the percentages but not by the format of the labels, so it stops
    every chart that formats a percentage.  In [category_graph] a column
    drawn as a pie chart raises ValueError before anything is drawn for
    it, while a column drawn as a bar chart is not affected.  In
    [category_graph_compare] a column with as many categories in both
    cohorts, and at least one, raises ValueError at the first label: the
    bars are drawn, no label is written and the figure is not shown. *)
Theorem negative_precision (cfg : PlotCfg) (column : string)
    (Hd : (percent_decimals cfg < 0)%Z) :
  (forall data axs nrows idx ax cells,
     select_axis axs nrows idx = Ok ax -> getitem data column = Ok cells ->
     let run := category_chart data cfg axs nrows idx column in
     ((distinct cells <= 2)%nat -> run = ([], Raise ValueError)) /\
     ((3 <= distinct cells)%nat -> outcome run = Ok tt)) /\
  (forall churned retained cc rc,
     getitem churned column = Ok cc -> getitem retained column = Ok rc ->
     value_counts cc <> [] ->
     length (value_counts rc) = length (value_counts cc) ->
     let run := compare_column cfg churned retained column in
     outcome run = Raise ValueError /\
     (exists bars, In (AxBar (0, 0)%nat bars (Some Retained)) (calls run)) /\
     length (List.filter is_text (calls run)) = 0%nat /\
     ~ In PltShow (calls run)).
Proof.
  assert ((percent_decimals cfg <? 0)%Z = true) as Hlt by (apply Z.ltb_lt; exact Hd).
  split.
  - intros data axs nrows idx ax cells Hax Hcells run. subst run.
    unfold category_chart. rewrite Hax, bind_lift_ok, Hcells, !bind_lift_ok.
    split.
    + intros Hk. apply chart_kind_pie in Hk. rewrite Hk.
      unfold pie_chart, check_precision. rewrite Hlt.
      destruct (fold_right Nat.add 0 (values (value_counts cells)) =? 0)%nat; reflexivity.
    + intros Hk. apply chart_kind_bar in Hk. rewrite Hk.
      apply bar_chart_returns. apply bar_chart_has_values. exact Hk.
  - intros churned retained cc rc Hcc Hrc Hne Hlen run. subst run.
    rewrite (compare_column_eq cfg churned retained column cc rc Hcc Hrc).
    erewrite compare_chart_drawn
      by (apply broadcast_same;
          rewrite length_positions, length_values, !length_percentages; auto).
    destruct (value_counts cc) as [|[a n] ccs]; [contradiction|].
    destruct (value_counts rc) as [|[b m] rcs]; [discriminate|].
    unfold label_pair, check_precision. rewrite Hlt.
    cbn -[Qplus Qminus Qdiv Qmult Qopp of_nat bar_width In np_round share].
    split; [reflexivity|]. split; [|split; [reflexivity|]].
    + eexists. right. right. left. reflexivity.
    + cbn [In]. intros H. repeat (destruct H as [H|H]; [discriminate|]). exact H.
Qed.

Lemma negative_precision_scenario :
  (-1 < 0)%Z /\
  category_chart scenario (mkPlotCfg "target" 1 "none" (-1)) (grid_axes 1) 1 0 "plan" =
    ([], Raise ValueError).
Proof.
  split; [reflexivity|].
  refine (proj1 (proj1 (negative_precision (mkPlotCfg "target" 1 "none" (-1)) "plan" eq_refl)
                   scenario (grid_axes 1) 1%nat 0%nat (0, 0)%nat (column_at 1 scenario)
                   eq_refl eq_refl) _).
  rewrite <- length_unique. vm_compute. lia.
Defined.
